(** * lambda-janitor: the scheduled cleanup of unused Lambda versions

    A shallow embedding of [lambda_janitor/main.py] and the properties of
    its cleanup policy.

    Modelling conventions.
    - A [datetime] is its wall-clock reading in microseconds together with
      its optional UTC offset ([tzinfo]); ordering a naive value against an
      aware one raises [TypeError], as Python does.  Date arithmetic is
      unbounded (no [OverflowError]); the statements that fix the outcome
      of the handler assume the dates of lines 54-55 within the years 1 to
      9999, where Python's arithmetic raises nothing.  What [strptime]
      reads from a text is left to the world; a text with an offset gives an
      aware value.
    - The three boto3 clients, the process clock, the environment and the
      two [datetime] library conversions are gathered in a [world]; the
      registry contents, the handler's two lists and the record of what was
      called and logged are the mutable [state].
    - Handler code runs in a state-and-exception monad [M]; effects done
      before an exception is raised stay in the state.
    - Listing calls succeed and deliver the pages held in the state at the
      moment the paginator is created; CloudWatch sums are integers. *)

From Stdlib Require Import ZArith List String Ascii Bool Lia.
Import ListNotations.
Open Scope string_scope.
Open Scope Z_scope.

(** ** Exceptions *)

Inductive exn : Type :=
| TypeError
| ValueError
| ResourceNotFound
| ClientError (code : string).

(** ** [datetime] and [timedelta] *)

Record datetime : Type := mk_datetime {
  wall : Z;              (* microseconds shown by the date and time fields *)
  tzinfo : option Z      (* UTC offset in microseconds; [None] for a naive value *)
}.

(** [timedelta(days=d)], in microseconds. *)
Definition timedelta_days (d : Z) : Z := d * 86400000000.

(** [d - delta]: the fields move, the [tzinfo] is kept. *)
Definition dt_sub (d : datetime) (delta : Z) : datetime :=
  mk_datetime (wall d - delta) (tzinfo d).

(** [a > b] on datetimes. *)
Definition dt_gt (a b : datetime) : exn + bool :=
  match tzinfo a, tzinfo b with
  | None, None => inr (wall b <? wall a)
  | Some oa, Some ob => inr (wall b - ob <? wall a - oa)
  | _, _ => inl TypeError
  end.

(** [a <= b] on datetimes. *)
Definition dt_le (a b : datetime) : exn + bool :=
  match tzinfo a, tzinfo b with
  | None, None => inr (wall a <=? wall b)
  | Some oa, Some ob => inr (wall a - oa <=? wall b - ob)
  | _, _ => inl TypeError
  end.

(** ** Registry records, list entries, log records and calls *)

(** One element of a [list_versions_by_function] page. *)
Record version_cfg : Type := mk_version {
  Version : string;
  LastModified : string
}.

(** The tuples appended to [alert_versions] and [deleted_versions]:
    [(function_name, version, last_modified)]. *)
Definition entry : Type := (string * string * datetime)%type.

Inductive level : Type := DEBUG | INFO | WARNING | ERROR.

(** One constructor per [logger] call site, carrying the values the
    message interpolates. *)
Inductive log_msg : Type :=
| MsgStarting
| MsgSettings (retention alert : Z)
| MsgProcessing (function_name : string)
| MsgEvaluating (version : string) (last_modified : datetime)
| MsgApproaching (version function_name : string)
| MsgSkipping (version function_name : string) (invocation_count : Z)
| MsgDeleting (version function_name : string)
| MsgCompleted
| MsgCleanupError (e : exn)
| MsgInvocationCount (function_name version : string) (count : Z)
| MsgMetricError (function_name version : string) (e : exn)
| MsgDeleted (version function_name : string)
| MsgDeleteFailed (version function_name : string) (e : exn)
| MsgMissingEmailConfig
| MsgEmailSent (recipients : string)
| MsgEmailFailed (e : exn).

(** What the run did, oldest first: log records, calls of the three
    clients, and calls of the notification routine. *)
Inductive event : Type :=
| Log (lvl : level) (msg : log_msg)
| GetMetricStatistics (function_name resource : string) (StartTime EndTime : datetime)
| DeleteFunction (FunctionName Qualifier : string)
| SendEmail (Source : string) (ToAddresses : list string) (body : string)
| CleanupAlert (alert deleted : list entry).   (* send_cleanup_alert was called *)

(** ** The world the handler runs in *)

Record world : Type := mk_world {
  (* os.getenv: the integer variables hold their integer value *)
  env_RETENTION_DAYS : option Z;
  env_ALERT_DAYS : option Z;
  env_EMAIL_RECIPIENTS : option string;
  env_EMAIL_SENDER : option string;
  (* the n-th call of datetime.now() reads [clock n] *)
  clock : nat -> Z;
  (* datetime.strptime(s, '%Y-%m-%dT%H:%M:%S.%f%z'): the fields and the UTC
     offset read, or [None] when the text does not match.  The offset is
     absent for a text without one, on an interpreter whose [%z] matches the
     empty text; on the others such a text does not match. *)
  strptime : string -> option (Z * option Z);
  (* last_modified.strftime('%Y-%m-%d') *)
  strftime_date : datetime -> string;
  (* cloudwatch get_metric_statistics: the Sum of each datapoint, or the error raised *)
  metric_sums : string -> string -> datetime -> datetime -> exn + list Z;
  (* a fault of the registry on delete_function, if any *)
  delete_fault : string -> string -> option exn;
  (* a fault of SES on send_email, if any *)
  send_fault : string -> list string -> string -> option exn
}.

Record state : Type := mk_state {
  function_pages : list (list string);               (* list_functions pages: FunctionName *)
  version_pages : string -> list (list version_cfg); (* list_versions_by_function pages *)
  ticks : nat;                                       (* datetime.now() calls so far *)
  alert_versions : list entry;
  deleted_versions : list entry;
  trace : list event
}.

Definition set_versions (f : string -> list (list version_cfg)) (st : state) : state :=
  mk_state (function_pages st) f (ticks st) (alert_versions st) (deleted_versions st) (trace st).
Definition set_ticks (n : nat) (st : state) : state :=
  mk_state (function_pages st) (version_pages st) n (alert_versions st) (deleted_versions st) (trace st).
Definition set_alert (l : list entry) (st : state) : state :=
  mk_state (function_pages st) (version_pages st) (ticks st) l (deleted_versions st) (trace st).
Definition set_deleted (l : list entry) (st : state) : state :=
  mk_state (function_pages st) (version_pages st) (ticks st) (alert_versions st) l (trace st).
Definition emit (e : event) (st : state) : state :=
  mk_state (function_pages st) (version_pages st) (ticks st) (alert_versions st)
           (deleted_versions st) (trace st ++ [e]).

(** ** The monad: state and exceptions *)

Definition M (A : Type) : Type := state -> (exn + A) * state.

Definition ret {A} (a : A) : M A := fun st => (inr a, st).

Definition bind {A B} (m : M A) (k : A -> M B) : M B :=
  fun st => match m st with
            | (inr a, st') => k a st'
            | (inl e, st') => (inl e, st')
            end.

Definition raise {A} (e : exn) : M A := fun st => (inl e, st).

(** [try: m  except Exception as e: h e]. *)
Definition try_except {A} (m : M A) (h : exn -> M A) : M A :=
  fun st => match m st with
            | (inr a, st') => (inr a, st')
            | (inl e, st') => h e st'
            end.

Definition lift {A} (r : exn + A) : M A := fun st => (r, st).

Definition gets {A} (f : state -> A) : M A := fun st => (inr (f st), st).

Definition modify (f : state -> state) : M unit := fun st => (inr tt, f st).

Declare Scope janitor_scope.
Delimit Scope janitor_scope with janitor.
Notation "x <- m ;; k" := (bind m (fun x => k))
  (at level 61, m at next level, right associativity) : janitor_scope.
Notation "m ;; k" := (bind m (fun _ => k))
  (at level 61, right associativity) : janitor_scope.
Open Scope janitor_scope.

(** [for x in l: body x]; a [continue] is the body returning. *)
Fixpoint for_each {A} (l : list A) (body : A -> M unit) : M unit :=
  match l with
  | [] => ret tt
  | x :: l' => body x ;; for_each l' body
  end.

(** ** Small Python library pieces *)

(** [s.split(",")]. *)
Fixpoint split_comma (s : string) : list string :=
  match s with
  | EmptyString => [EmptyString]
  | String c s' =>
      if Ascii.eqb c ","%char then EmptyString :: split_comma s'
      else match split_comma s' with
           | h :: t => String c h :: t
           | [] => [String c EmptyString]
           end
  end.

(** [", ".join(l)]. *)
Fixpoint join_comma (l : list string) : string :=
  match l with
  | [] => ""
  | [x] => x
  | x :: l' => x ++ ", " ++ join_comma l'
  end.

(** Truth value of a list, of a string, of an optional string. *)
Definition truthy_list {A} (l : list A) : bool :=
  match l with [] => false | _ :: _ => true end.
Definition truthy_str (s : string) : bool :=
  match s with EmptyString => false | String _ _ => true end.
Definition truthy_opt (o : option string) : bool :=
  match o with None => false | Some s => truthy_str s end.

(** [sum(...)] over the datapoints. *)
Definition sum_Z (l : list Z) : Z := fold_left Z.add l 0.

(** ** The program *)

Section Program.

Variable w : world.

(** Module-level configuration, lines 37-40. *)
Definition RETENTION_DAYS : Z :=
  match env_RETENTION_DAYS w with Some n => n | None => 30 end.
Definition ALERT_DAYS : Z :=
  match env_ALERT_DAYS w with Some n => n | None => 7 end.
Definition EMAIL_RECIPIENTS : list string :=
  split_comma (match env_EMAIL_RECIPIENTS w with Some s => s | None => "" end).
Definition EMAIL_SENDER : option string := env_EMAIL_SENDER w.

(** [logger.<lvl>(msg)]. *)
Definition log (lvl : level) (msg : log_msg) : M unit := modify (emit (Log lvl msg)).

(** [datetime.now()]: a naive reading of the clock. *)
Definition now : M datetime :=
  fun st => (inr (mk_datetime (clock w (ticks st)) None), set_ticks (S (ticks st)) st).

(** [datetime.strptime(s, '%Y-%m-%dT%H:%M:%S.%f%z')]: a text with an offset
    yields an aware value, a text that does not match raises [ValueError]. *)
Definition parse_last_modified (s : string) : M datetime :=
  match strptime w s with
  | Some (fields, offset) => ret (mk_datetime fields offset)
  | None => raise ValueError
  end.

(** [cloudwatch_client.get_metric_statistics(...)], giving the [Sum] of
    each datapoint of the response. *)
Definition cloudwatch_get_metric_statistics
    (function_name resource : string) (StartTime EndTime : datetime) : M (list Z) :=
  modify (emit (GetMetricStatistics function_name resource StartTime EndTime)) ;;
  lift (metric_sums w function_name resource StartTime EndTime).

Definition has_version (q : string) (pages : list (list version_cfg)) : bool :=
  existsb (existsb (fun v => String.eqb (Version v) q)) pages.

Definition remove_version (q : string) (pages : list (list version_cfg))
  : list (list version_cfg) :=
  map (filter (fun v => negb (String.eqb (Version v) q))) pages.

(** [lambda_client.delete_function(FunctionName=f, Qualifier=q)]. *)
Definition lambda_delete_function (f q : string) : M unit :=
  modify (emit (DeleteFunction f q)) ;;
  match delete_fault w f q with
  | Some e => raise e
  | None =>
      pages <- gets (fun st => version_pages st f) ;;
      if has_version q pages then
        modify (fun st => set_versions
                  (fun g => if String.eqb g f then remove_version q (version_pages st g)
                            else version_pages st g) st)
      else raise ResourceNotFound
  end.

(** [ses_client.send_email(...)]. *)
Definition ses_send_email (source : string) (to : list string) (body : string) : M unit :=
  modify (emit (SendEmail source to body)) ;;
  match send_fault w source to body with
  | Some e => raise e
  | None => ret tt
  end.

(** Lines 103-125. *)
Definition get_invocation_count (function_name version : string) (cutoff_date : datetime)
  : M Z :=
  try_except
    (end_time <- now ;;
     response <- cloudwatch_get_metric_statistics function_name
                   (function_name ++ ":" ++ version) cutoff_date end_time ;;
     let count := sum_Z response in
     log DEBUG (MsgInvocationCount function_name version count) ;;
     ret count)
    (fun e =>
       log ERROR (MsgMetricError function_name version e) ;;
       ret 0).

(** Lines 127-135. *)
Definition delete_lambda_version (function_name version : string) : M unit :=
  try_except
    (lambda_delete_function function_name version ;;
     log INFO (MsgDeleted version function_name))
    (fun e => log ERROR (MsgDeleteFailed version function_name e)).

(** One table row of the message, lines 151 and 158. *)
Definition table_row (e : entry) : string :=
  let '(function_name, version, last_modified) := e in
  "<tr><td>" ++ function_name ++ "</td><td>" ++ version ++ "</td><td>"
    ++ strftime_date w last_modified ++ "</td></tr>".

Definition table_rows (l : list entry) : string :=
  fold_left (fun body e => body ++ table_row e) l "".

(** Lines 145-161. *)
Definition message_body (alert deleted : list entry) : string :=
  let body := "<html><body><h2>Lambda Cleanup Notification</h2>" in
  let body :=
    if truthy_list deleted then
      body ++ "<h3>Deleted Lambda Versions</h3><table border='1' cellpadding='5' cellspacing='0'>"
           ++ "<tr><th>Function Name</th><th>Version</th><th>Last Modified</th></tr>"
           ++ table_rows deleted
           ++ "</table><br>"
    else body in
  let body :=
    if truthy_list alert then
      body ++ "<h3>Lambda Versions Scheduled for Deletion Soon</h3><table border='1' cellpadding='5' cellspacing='0'>"
           ++ "<tr><th>Function Name</th><th>Version</th><th>Last Modified</th></tr>"
           ++ table_rows alert
           ++ "</table><br>"
    else body in
  body ++ "</body></html>".

(** Lines 137-174. *)
Definition send_cleanup_alert (alert deleted : list entry) : M unit :=
  modify (emit (CleanupAlert alert deleted)) ;;
  if negb (truthy_list EMAIL_RECIPIENTS) || negb (truthy_opt EMAIL_SENDER) then
    log ERROR MsgMissingEmailConfig
  else
    match EMAIL_SENDER with
    | None => log ERROR MsgMissingEmailConfig
    | Some sender =>
        try_except
          (ses_send_email sender EMAIL_RECIPIENTS (message_body alert deleted) ;;
           log INFO (MsgEmailSent (join_comma EMAIL_RECIPIENTS)))
          (fun e => log ERROR (MsgEmailFailed e))
    end.

(** The body of the innermost loop, lines 73-92. *)
Definition process_version (cutoff_date alert_date : datetime) (function_name : string)
    (version : version_cfg) : M unit :=
  if String.eqb (Version version) "$LATEST" then ret tt
  else
    last_modified <- parse_last_modified (LastModified version) ;;
    log DEBUG (MsgEvaluating (Version version) last_modified) ;;
    newer <- lift (dt_gt last_modified cutoff_date) ;;
    if (newer : bool) then
      near <- lift (dt_le last_modified alert_date) ;;
      if (near : bool) then
        log INFO (MsgApproaching (Version version) function_name) ;;
        modify (fun st => set_alert
                  (alert_versions st ++ [(function_name, Version version, last_modified)]) st)
      else ret tt
    else
      invocation_count <- get_invocation_count function_name (Version version) cutoff_date ;;
      if 0 <? invocation_count then
        log INFO (MsgSkipping (Version version) function_name invocation_count)
      else
        log WARNING (MsgDeleting (Version version) function_name) ;;
        modify (fun st => set_deleted
                  (deleted_versions st ++ [(function_name, Version version, last_modified)]) st) ;;
        delete_lambda_version function_name (Version version).

(** The versions of one function, lines 65-92. *)
Definition process_function (cutoff_date alert_date : datetime) (function_name : string)
  : M unit :=
  log INFO (MsgProcessing function_name) ;;
  pages <- gets (fun st => version_pages st function_name) ;;
  for_each pages (fun version_page =>
    for_each version_page (process_version cutoff_date alert_date function_name)).

(** Lines 60-92: every function of every page. *)
Definition process_all (cutoff_date alert_date : datetime) : M unit :=
  pages <- gets function_pages ;;
  for_each pages (fun page =>
    for_each page (process_function cutoff_date alert_date)).

(** Lines 94-95. *)
Definition notify : M unit :=
  alert <- gets alert_versions ;;
  deleted <- gets deleted_versions ;;
  if truthy_list alert || truthy_list deleted then send_cleanup_alert alert deleted
  else ret tt.

(** Lines 57-97, as a function of the two dates computed on lines 54-55. *)
Definition cleanup (cutoff_date alert_date : datetime) : M unit :=
  modify (set_alert []) ;;
  modify (set_deleted []) ;;
  process_all cutoff_date alert_date ;;
  notify ;;
  log INFO MsgCompleted.

(** Lines 46-101. *)
Definition lambda_handler : M unit :=
  log INFO MsgStarting ;;
  log INFO (MsgSettings RETENTION_DAYS ALERT_DAYS) ;;
  try_except
    (n1 <- now ;;
     let cutoff_date := dt_sub n1 (timedelta_days RETENTION_DAYS) in
     n2 <- now ;;
     let alert_date := dt_sub n2 (timedelta_days (RETENTION_DAYS - ALERT_DAYS)) in
     cleanup cutoff_date alert_date)
    (fun e =>
       log ERROR (MsgCleanupError e) ;;
       raise e).

End Program.

(** ** A concrete world: the scenario of the specification *)

(** Day number of a civil date, as [date.toordinal()] computes it. *)
Definition days_before_year (y : Z) : Z :=
  (y - 1) * 365 + (y - 1) / 4 - (y - 1) / 100 + (y - 1) / 400.
Definition is_leap (y : Z) : bool :=
  ((y mod 4 =? 0) && negb (y mod 100 =? 0)) || (y mod 400 =? 0).
Definition days_before_month (y m : Z) : Z :=
  nth (Z.to_nat m) [0; 0; 31; 59; 90; 120; 151; 181; 212; 243; 273; 304; 334] 0
  + (if (2 <? m) && is_leap y then 1 else 0).
Definition toordinal (y m d : Z) : Z := days_before_year y + days_before_month y m + d.

(** The fields of midnight of a civil date, in microseconds. *)
Definition midnight (y m d : Z) : Z := timedelta_days (toordinal y m d - 1).

(** The registry's timestamps that occur in the scenarios, all at UTC. *)
Definition scenario_strptime (s : string) : option (Z * option Z) :=
  if String.eqb s "2024-09-27T00:00:00.000+0000" then Some (midnight 2024 9 27, Some 0)
  else if String.eqb s "2024-09-30T00:00:00.000+0000" then Some (midnight 2024 9 30, Some 0)
  else if String.eqb s "2024-10-07T00:00:00.000+0000" then Some (midnight 2024 10 7, Some 0)
  else if String.eqb s "2024-10-09T00:00:00.000+0000" then Some (midnight 2024 10 9, Some 0)
  else if String.eqb s "2024-10-22T00:00:00.000+0000" then Some (midnight 2024 10 22, Some 0)
  else None.

Definition scenario_strftime (d : datetime) : string :=
  if wall d =? midnight 2024 9 27 then "2024-09-27"
  else if wall d =? midnight 2024 9 30 then "2024-09-30"
  else if wall d =? midnight 2024 10 7 then "2024-10-07"
  else if wall d =? midnight 2024 10 9 then "2024-10-09"
  else if wall d =? midnight 2024 10 22 then "2024-10-22"
  else "????-??-??".

(** Version 2 of [fn] was invoked once in the window; nothing else was. *)
Definition scenario_metrics (function_name resource : string) (s e : datetime)
  : exn + list Z :=
  if String.eqb resource "fn:2" then inr [1] else inr [].

(** Retention 30 days, alert lead 7 days, the clock stands at
    2024-11-01T00:00, no collaborator fails. *)
Definition scenario_world : world :=
  mk_world (Some 30) (Some 7) (Some "user@example.com,admin@example.com")
           (Some "notify@example.com")
           (fun _ => midnight 2024 11 1)
           scenario_strptime scenario_strftime scenario_metrics
           (fun _ _ => None) (fun _ _ _ => None).

(** A is 35 days old and unused, B is 32 days old and used, C is 25 days
    old, D is 10 days old. *)
Definition scenario_versions : list (list version_cfg) :=
  [[mk_version "$LATEST" "2024-10-22T00:00:00.000+0000";
    mk_version "1" "2024-09-27T00:00:00.000+0000";
    mk_version "2" "2024-09-30T00:00:00.000+0000"];
   [mk_version "3" "2024-10-07T00:00:00.000+0000";
    mk_version "4" "2024-10-22T00:00:00.000+0000"]].

Definition initial_state (fns : list (list string))
    (vers : string -> list (list version_cfg)) : state :=
  mk_state fns vers 0 [] [] [].

Definition scenario_state : state :=
  initial_state [["fn"]] (fun f => if String.eqb f "fn" then scenario_versions else []).

(** A registry whose only published version is 25 days old. *)
Definition alert_window_state : state :=
  initial_state [["fn"]]
    (fun f => if String.eqb f "fn"
              then [[mk_version "$LATEST" "2024-10-22T00:00:00.000+0000";
                     mk_version "3" "2024-10-07T00:00:00.000+0000"]]
              else []).

(** The two dates of lines 54-55 had the clock given aware (UTC) readings. *)
Definition aware_cutoff : datetime := mk_datetime (midnight 2024 10 2) (Some 0).
Definition aware_alert : datetime := mk_datetime (midnight 2024 10 9) (Some 0).

(** The entries of versions 1 and 3 of the scenario. *)
Definition version_A : entry := ("fn", "1", mk_datetime (midnight 2024 9 27) (Some 0)).
Definition version_C : entry := ("fn", "3", mk_datetime (midnight 2024 10 7) (Some 0)).

(** The same world with one collaborator misbehaving or one setting absent. *)
Definition denied_world : world :=
  mk_world (Some 30) (Some 7) (Some "user@example.com,admin@example.com")
           (Some "notify@example.com")
           (fun _ => midnight 2024 11 1)
           scenario_strptime scenario_strftime scenario_metrics
           (fun _ q => if String.eqb q "1" then Some (ClientError "AccessDenied") else None)
           (fun _ _ _ => None).

Definition outage_world : world :=
  mk_world (Some 30) (Some 7) (Some "user@example.com,admin@example.com")
           (Some "notify@example.com")
           (fun _ => midnight 2024 11 1)
           scenario_strptime scenario_strftime
           (fun _ _ _ _ => inl (ClientError "Throttling"))
           (fun _ _ => None) (fun _ _ _ => None).

Definition rejecting_world : world :=
  mk_world (Some 30) (Some 7) (Some "user@example.com,admin@example.com")
           (Some "notify@example.com")
           (fun _ => midnight 2024 11 1)
           scenario_strptime scenario_strftime scenario_metrics
           (fun _ _ => None) (fun _ _ _ => Some (ClientError "MessageRejected")).

Definition no_recipients_world : world :=
  mk_world (Some 30) (Some 7) None (Some "notify@example.com")
           (fun _ => midnight 2024 11 1)
           scenario_strptime scenario_strftime scenario_metrics
           (fun _ _ => None) (fun _ _ _ => None).

Definition no_sender_world : world :=
  mk_world (Some 30) (Some 7) (Some "user@example.com,admin@example.com") None
           (fun _ => midnight 2024 11 1)
           scenario_strptime scenario_strftime scenario_metrics
           (fun _ _ => None) (fun _ _ _ => None).

(** ** Observations on states and traces *)

Definition sentinel : string := "$LATEST".

Definition is_sentinel (v : version_cfg) : bool := String.eqb (Version v) sentinel.

(** What the two paginators deliver, pages joined. *)
Definition listed_functions (st : state) : list string := List.concat (function_pages st).
Definition listed_versions (st : state) (f : string) : list version_cfg :=
  List.concat (version_pages st f).

(** Every version the run would meet, in the order of the loops. *)
Definition enumeration (st : state) : list (string * version_cfg) :=
  flat_map (fun f => map (pair f) (listed_versions st f)) (listed_functions st).

(** The first version the loops meet that is not the sentinel. *)
Definition first_version (st : state) : option (string * version_cfg) :=
  find (fun p => negb (is_sentinel (snd p))) (enumeration st).

Definition is_log (e : event) : bool :=
  match e with Log _ _ => true | _ => false end.

(** The trace without its log records. *)
Definition calls (tr : list event) : list event := filter (fun e => negb (is_log e)) tr.

Definition delete_requests (tr : list event) : list (string * string) :=
  flat_map (fun e => match e with DeleteFunction f q => [(f, q)] | _ => [] end) tr.

Definition metric_lookups (tr : list event) : list (string * string) :=
  flat_map (fun e => match e with GetMetricStatistics f r _ _ => [(f, r)] | _ => [] end) tr.

Definition send_attempts (tr : list event) : list (string * list string * string) :=
  flat_map (fun e => match e with SendEmail s t b => [(s, t, b)] | _ => [] end) tr.

Definition alert_calls (tr : list event) : list (list entry * list entry) :=
  flat_map (fun e => match e with CleanupAlert a d => [(a, d)] | _ => [] end) tr.

Definition error_logs (tr : list event) : list log_msg :=
  flat_map (fun e => match e with Log ERROR m => [m] | _ => [] end) tr.

Definition entry_version (e : entry) : string := snd (fst e).
Definition entry_modified (e : entry) : datetime := snd e.
Definition entry_key (e : entry) : string * string := (fst (fst e), snd (fst e)).

(** The exception that lines 76-79 raise on a version other than the
    sentinel when the cutoff is naive: [ValueError] when the text does not
    parse, [TypeError] when it parses to an aware value, which line 79 then
    compares with the naive cutoff; none when it parses to a naive value. *)
Definition naive_failure (w : world) (v : version_cfg) : option exn :=
  match strptime w (LastModified v) with
  | Some (_, Some _) => Some TypeError
  | Some (_, None) => None
  | None => Some ValueError
  end.

(** ** The policy, read off the loop body

    What lines 73-92 decide for one version when the clock reads [t]. *)

Inductive verdict : Type :=
| VSentinel
| VAbort (e : exn)
| VAlert (last_modified : datetime)
| VRecent (last_modified : datetime)
| VInUse (last_modified : datetime) (count : Z)
| VDelete (last_modified : datetime).

Section Policy.

Variable w : world.
Variables cutoff_date alert_date : datetime.

(** The count [get_invocation_count] returns for version [v] of [f]. *)
Definition invocation_count_at (t : Z) (f v : string) : Z :=
  match metric_sums w f (f ++ ":" ++ v) cutoff_date (mk_datetime t None) with
  | inr sums => sum_Z sums
  | inl _ => 0
  end.

(** The decision, in the order of the tests of lines 73, 79, 80 and 86. *)
Definition classify (t : Z) (f : string) (v : version_cfg) : verdict :=
  if is_sentinel v then VSentinel
  else match strptime w (LastModified v) with
       | None => VAbort ValueError
       | Some (fields, offset) =>
           let lm := mk_datetime fields offset in
           match dt_gt lm cutoff_date with
           | inl e => VAbort e
           | inr true =>
               match dt_le lm alert_date with
               | inl e => VAbort e
               | inr true => VAlert lm
               | inr false => VRecent lm
               end
           | inr false =>
               let n := invocation_count_at t f (Version v) in
               if 0 <? n then VInUse lm n else VDelete lm
           end
       end.

(** One pass over the versions of [f]: the identifiers it deletes and the
    exception that ends it, if any. *)
Fixpoint scan (t : Z) (f : string) (l : list version_cfg) : list string * option exn :=
  match l with
  | [] => ([], None)
  | v :: l' =>
      match classify t f v with
      | VAbort e => ([], Some e)
      | VDelete _ => let (D, o) := scan t f l' in (Version v :: D, o)
      | _ => scan t f l'
      end
  end.

(** A registry on which a run over the functions [F] deletes nothing. *)
Fixpoint settled (t : Z) (reg : string -> list version_cfg) (F : list string) : Prop :=
  match F with
  | [] => True
  | f :: F' =>
      fst (scan t f (reg f)) = [] /\
      (snd (scan t f (reg f)) = None -> settled t reg F')
  end.

End Policy.

(** The versions left once the identifiers [D] are deleted. *)
Definition without (D : list string) (l : list version_cfg) : list version_cfg :=
  filter (fun v => negb (existsb (String.eqb (Version v)) D)) l.

(** Version identifiers are unique within each function. *)
Definition unique_versions (st : state) : Prop :=
  forall f, NoDup (map Version (listed_versions st f)).

(** ** Invariants carried through the monad *)

(** [m] keeps [P], whether it returns or raises. *)
Definition preserves {A} (P : state -> Prop) (m : M A) : Prop :=
  forall st, P st -> P (snd (m st)).

(** No version of the lists, no metric lookup and no delete request is the
    sentinel. *)
Definition event_spares_sentinel (e : event) : Prop :=
  match e with
  | GetMetricStatistics f r _ _ => r <> f ++ ":" ++ sentinel
  | DeleteFunction _ q => q <> sentinel
  | _ => True
  end.

Definition spares_sentinel (st : state) : Prop :=
  Forall (fun e => entry_version e <> sentinel) (alert_versions st) /\
  Forall (fun e => entry_version e <> sentinel) (deleted_versions st) /\
  Forall event_spares_sentinel (trace st).

(** ** Vocabulary of the statements *)

(** What a final state shows when the sentinel was left alone. *)
Definition sentinel_untouched (st : state) : Prop :=
  Forall (fun e => entry_version e <> sentinel) (alert_versions st) /\
  Forall (fun e => entry_version e <> sentinel) (deleted_versions st) /\
  Forall (fun fr => snd fr <> (fst fr ++ ":" ++ sentinel)%string) (metric_lookups (trace st)) /\
  Forall (fun fq => snd fq <> sentinel) (delete_requests (trace st)).

(** The outcome of a loop whose body's outcome on [x] is [res x], as far as
    the outcomes of the body are known. *)
Fixpoint first_failure {A} (res : A -> option (exn + unit)) (l : list A)
  : option (exn + unit) :=
  match l with
  | [] => Some (inr tt)
  | x :: l' => match res x with
               | Some (inl e) => Some (inl e)
               | Some (inr _) => first_failure res l'
               | None => None
               end
  end.

(** The state in which line 57 is reached, and the two dates of lines 54-55. *)
Definition handler_entry (w : world) (st : state) : state :=
  set_ticks (S (S (ticks st)))
    (emit (Log INFO (MsgSettings (RETENTION_DAYS w) (ALERT_DAYS w)))
       (emit (Log INFO MsgStarting) st)).

Definition handler_cutoff (w : world) (st : state) : datetime :=
  dt_sub (mk_datetime (clock w (ticks st)) None) (timedelta_days (RETENTION_DAYS w)).

Definition handler_alert (w : world) (st : state) : datetime :=
  dt_sub (mk_datetime (clock w (S (ticks st))) None)
         (timedelta_days (RETENTION_DAYS w - ALERT_DAYS w)).

(** A value Python's [datetime] can hold: from 0001-01-01T00:00:00 to
    9999-12-31T23:59:59.999999.  Date arithmetic that would leave the range
    raises [OverflowError]. *)
Definition in_range (d : datetime) : Prop :=
  0 <= wall d < timedelta_days (toordinal 9999 12 31).

(** The two readings of the clock of lines 54-55 and the two dates computed
    from them are values [datetime] can hold: neither line raises. *)
Definition dates_in_range (w : world) (st : state) : Prop :=
  in_range (mk_datetime (clock w (ticks st)) None) /\
  in_range (handler_cutoff w st) /\
  in_range (mk_datetime (clock w (S (ticks st))) None) /\
  in_range (handler_alert w st).


(** The registry is as it was, the two lists are empty, nothing was called
    and no error was logged. *)
Definition quiet (fns : list (list string)) (vers : string -> list (list version_cfg))
    (st : state) : Prop :=
  function_pages st = fns /\ version_pages st = vers /\
  alert_versions st = [] /\ deleted_versions st = [] /\
  calls (trace st) = [] /\ error_logs (trace st) = [].

(** The outcome of the loop body on one version when the cutoff is naive,
    where it does not depend on the dates. *)
Definition naive_outcome (w : world) (v : version_cfg) : option (exn + unit) :=
  if is_sentinel v then Some (inr tt) else option_map inl (naive_failure w v).

(** The outcome of the loops on the whole registry when the cutoff is naive,
    where it does not depend on the dates. *)
Definition naive_run_outcome (w : world) (fns : list (list string))
    (vers : string -> list (list version_cfg)) : option (exn + unit) :=
  first_failure (fun f => first_failure (naive_outcome w) (List.concat (vers f)))
                (List.concat fns).

(** The value line 76 gives to [last_modified]. *)
Definition parsed (w : world) (v : version_cfg) : option datetime :=
  match strptime w (LastModified v) with
  | Some (fields, offset) => Some (mk_datetime fields offset)
  | None => None
  end.

(** The entry was built from a version the registry listed at the start. *)
Definition from_registry (w : world) (st0 : state) (e : entry) : Prop :=
  exists v, In v (listed_versions st0 (fst (fst e))) /\
            Version v = entry_version e /\ parsed w v = Some (entry_modified e).

(** The registry only shrinks; every entry of [deleted_versions] stems from
    a listed version that line 79 found not newer than the cutoff; every
    delete request is for such an entry. *)
Definition deletions_justified (w : world) (cutoff_date : datetime) (st0 st : state)
  : Prop :=
  (forall f, incl (listed_versions st f) (listed_versions st0 f)) /\
  Forall (fun e => dt_gt (entry_modified e) cutoff_date = inr false /\ from_registry w st0 e)
         (deleted_versions st) /\
  incl (delete_requests (trace st)) (map entry_key (deleted_versions st)).

(** No delete request was issued for the version and no entry of
    [deleted_versions] carries it. *)
Definition never_deleted (f : string) (v : version_cfg) (st : state) : Prop :=
  ~ In (f, Version v) (delete_requests (trace st)) /\
  ~ In (f, Version v) (map entry_key (deleted_versions st)).

(** The source address the send is attempted with. *)
Definition sender_of (w : world) : string :=
  match EMAIL_SENDER w with Some s => s | None => "" end.

(** The send that one call of [send_cleanup_alert] attempts, if any. *)
Definition attempted_send (w : world) (alert deleted : list entry)
  : list (string * list string * string) :=
  if truthy_opt (EMAIL_SENDER w)
  then [(sender_of w, EMAIL_RECIPIENTS w, message_body w alert deleted)]
  else [].

(** Neither the notification routine nor SES has been called. *)
Definition unnotified (st : state) : Prop :=
  alert_calls (trace st) = [] /\ send_attempts (trace st) = [].

(** How often, and with which lists, a finished run has called the
    notification routine. *)
Definition notified_once (r : (exn + unit) * state) : Prop :=
  let st := snd r in
  alert_calls (trace st)
  = match fst r with
    | inr _ =>
        if truthy_list (alert_versions st) || truthy_list (deleted_versions st)
        then [(alert_versions st, deleted_versions st)]
        else []
    | inl _ => []
    end.

(** The two lists, and the registry, are where they were. *)
Definition same_lists (st st' : state) : Prop :=
  alert_versions st' = alert_versions st /\ deleted_versions st' = deleted_versions st.
Definition same_registry (st st' : state) : Prop :=
  function_pages st' = function_pages st /\ version_pages st' = version_pages st.

(** What lines 73-92 do with one version, case by case of what they decide. *)
Definition version_effect (w : world) (f : string) (v : version_cfg) (d : verdict)
    (st : state) (r : (exn + unit) * state) : Prop :=
  let st' := snd r in
  match d with
  | VSentinel => r = (inr tt, st)
  | VAbort e =>
      fst r = inl e /\ same_lists st st' /\ version_pages st' = version_pages st /\
      calls (trace st') = calls (trace st)
  | VAlert lm =>
      fst r = inr tt /\
      alert_versions st' = (alert_versions st ++ [(f, Version v, lm)])%list /\
      deleted_versions st' = deleted_versions st /\
      version_pages st' = version_pages st /\
      calls (trace st') = calls (trace st)
  | VRecent lm =>
      fst r = inr tt /\ same_lists st st' /\ version_pages st' = version_pages st /\
      calls (trace st') = calls (trace st)
  | VInUse lm n =>
      fst r = inr tt /\ same_lists st st' /\ version_pages st' = version_pages st /\
      delete_requests (trace st') = delete_requests (trace st)
  | VDelete lm =>
      fst r = inr tt /\
      alert_versions st' = alert_versions st /\
      deleted_versions st' = (deleted_versions st ++ [(f, Version v, lm)])%list /\
      delete_requests (trace st') = (delete_requests (trace st) ++ [(f, Version v)])%list /\
      match delete_fault w f (Version v) with
      | Some _ => version_pages st' = version_pages st
      | None =>
          forall g, listed_versions st' g
                    = if String.eqb g f
                      then filter (fun x => negb (String.eqb (Version x) (Version v)))
                                  (listed_versions st g)
                      else listed_versions st g
      end
  end.

(** A registry on which a run of lines 57-97, the clock standing at its
    first reading, deletes nothing. *)
Definition settled_state (w : world) (cutoff_date alert_date : datetime) (st : state)
  : Prop :=
  settled w cutoff_date alert_date (clock w 0%nat) (listed_versions st)
          (listed_functions st).

(** ** Vocabulary of the further properties *)

(** One delete request per entry of [deleted_versions], in the same order. *)
Definition requests_match (st : state) : Prop :=
  delete_requests (trace st) = map entry_key (deleted_versions st).

(** The function listing is untouched; a listing of versions only loses
    versions, and only versions a delete request named. *)
Definition registry_frame (st0 st : state) : Prop :=
  function_pages st = function_pages st0 /\
  (forall f, incl (listed_versions st f) (listed_versions st0 f)) /\
  (forall f v, In v (listed_versions st0 f) ->
     In v (listed_versions st f) \/ In (f, Version v) (delete_requests (trace st))).

(** Every entry of [alert_versions] is newer than the cutoff and not newer
    than the alert date. *)
Definition alerts_in_window (cutoff_date alert_date : datetime) (st : state) : Prop :=
  Forall (fun e => dt_gt (entry_modified e) cutoff_date = inr true /\
                   dt_le (entry_modified e) alert_date = inr true)
         (alert_versions st).

(** The entry lines 79-82 append to [alert_versions] for one version, if any. *)
Definition alert_entry (w : world) (cutoff_date alert_date : datetime) (f : string)
    (v : version_cfg) : list entry :=
  if is_sentinel v then []
  else match parsed w v with
       | Some lm =>
           match dt_gt lm cutoff_date, dt_le lm alert_date with
           | inr true, inr true => [(f, Version v, lm)]
           | _, _ => []
           end
       | None => []
       end.

(** The entry lines 85-91 append to [deleted_versions] for one version, if
    any, when the clock reads [t]. *)
Definition delete_entry (w : world) (cutoff_date : datetime) (t : Z) (f : string)
    (v : version_cfg) : list entry :=
  if is_sentinel v then []
  else match parsed w v with
       | Some lm =>
           match dt_gt lm cutoff_date with
           | inr false =>
               if 0 <? invocation_count_at w cutoff_date t f (Version v) then []
               else [(f, Version v, lm)]
           | _ => []
           end
       | None => []
       end.

(** The two records that close a run of the handler, lines 97 and 100. *)
Definition closing_record (e : event) : bool :=
  match e with
  | Log _ MsgCompleted => true
  | Log _ (MsgCleanupError _) => true
  | _ => false
  end.

(** The trace is [tr0] followed by what was added since, and nothing added
    is a closing record. *)
Definition extends (tr0 : list event) (st : state) : Prop :=
  exists tr, trace st = (tr0 ++ tr)%list /\ Forall (fun e => closing_record e = false) tr.

(** The metric service answers for version [q] of [f], whatever the end of
    the window, with datapoints that are not negative and one of which is
    positive. *)
Definition in_use (w : world) (cutoff_date : datetime) (f q : string) : Prop :=
  forall t, exists sums,
    metric_sums w f (f ++ ":" ++ q) cutoff_date (mk_datetime t None) = inr sums /\
    Forall (fun x => 0 <= x) sums /\ Exists (fun x => 0 < x) sums.

(** No delete request names version [q] of [f], and what the registry
    listed under that identifier in [st0] it still lists. *)
Definition kept (f q : string) (st0 st : state) : Prop :=
  ~ In (f, q) (delete_requests (trace st)) /\
  forall v, In v (listed_versions st0 f) -> Version v = q -> In v (listed_versions st f).

(** The alert entries of every version of the enumeration, in its order. *)
Definition expected_alerts (w : world) (cutoff_date alert_date : datetime) (st : state)
  : list entry :=
  flat_map (fun p => alert_entry w cutoff_date alert_date (fst p) (snd p)) (enumeration st).

(** The deleted entries of every version of the enumeration, in its order,
    the clock reading [t]. *)
Definition expected_deletions (w : world) (cutoff_date : datetime) (t : Z) (st : state)
  : list entry :=
  flat_map (fun p => delete_entry w cutoff_date t (fst p) (snd p)) (enumeration st).

(** The text holds a comma. *)
Fixpoint has_comma (s : string) : bool :=
  match s with
  | EmptyString => false
  | String c s' => Ascii.eqb c ","%char || has_comma s'
  end.

(** The number of commas of the text. *)
Fixpoint count_commas (s : string) : nat :=
  match s with
  | EmptyString => 0%nat
  | String c s' => ((if Ascii.eqb c ","%char then 1 else 0) + count_commas s')%nat
  end.

(** A metric lookup asks for the window from the cutoff to a reading of the
    clock, for a resource named [function:version]. *)
Definition lookup_in_window (w : world) (cutoff_date : datetime) (e : event) : Prop :=
  match e with
  | GetMetricStatistics f r s e' =>
      s = cutoff_date /\
      (exists n, e' = mk_datetime (clock w n) None) /\
      exists q, r = (f ++ ":" ++ q)%string
  | _ => True
  end.

(** The text [piece] occurs in [text]. *)
Definition occurs_in (piece text : string) : Prop :=
  exists p s, text = (p ++ piece ++ s)%string.

(** * Proofs *)

Section MonadFacts.

Context {A B : Type}.
Variable P : state -> Prop.

Lemma preserves_ret (a : A) : preserves P (ret a).
Proof. intros st H; exact H. Qed.

Lemma preserves_raise (e : exn) : preserves P (@raise A e).
Proof. intros st H; exact H. Qed.

Lemma preserves_lift (r : exn + A) : preserves P (lift r).
Proof. intros st H; exact H. Qed.

Lemma preserves_gets (f : state -> A) : preserves P (gets f).
Proof. intros st H; exact H. Qed.

Lemma preserves_modify (f : state -> state) :
  (forall st, P st -> P (f st)) -> preserves P (modify f).
Proof. intros Hf st H; apply Hf, H. Qed.

Lemma preserves_bind (m : M A) (k : A -> M B) :
  preserves P m -> (forall a, preserves P (k a)) -> preserves P (bind m k).
Proof.
  intros Hm Hk st H. unfold bind.
  specialize (Hm st H). destruct (m st) as [[e | a] st']; simpl in *.
  - exact Hm.
  - apply Hk, Hm.
Qed.

Lemma preserves_try_except (m : M A) (h : exn -> M A) :
  preserves P m -> (forall e, preserves P (h e)) -> preserves P (try_except m h).
Proof.
  intros Hm Hh st H. unfold try_except.
  specialize (Hm st H). destruct (m st) as [[e | a] st']; simpl in *.
  - apply Hh, Hm.
  - exact Hm.
Qed.

End MonadFacts.

Lemma preserves_bind_ret {A B} (P : state -> Prop) (a : A) (k : A -> M B) :
  preserves P (k a) -> preserves P (bind (ret a) k).
Proof. intros Hk st H. apply Hk, H. Qed.

Lemma preserves_bind_raise {A B} (P : state -> Prop) (e : exn) (k : A -> M B) :
  preserves P (bind (raise e) k).
Proof. intros st H. exact H. Qed.

Lemma preserves_bind_lift {A B} (P : state -> Prop) (r : exn + A) (k : A -> M B) :
  (forall a, r = inr a -> preserves P (k a)) -> preserves P (bind (lift r) k).
Proof.
  intros Hk st H. unfold bind, lift. destruct r as [e | a]; simpl.
  - exact H.
  - apply (Hk a eq_refl), H.
Qed.

Lemma bind_run {A B} (m : M A) (k : A -> M B) (st : state) :
  bind m k st = match m st with
                | (inr a, st') => k a st'
                | (inl e, st') => (inl e, st')
                end.
Proof. reflexivity. Qed.

Lemma preserves_for_each {A} (P : state -> Prop) (body : A -> M unit) (l : list A) :
  (forall x, In x l -> preserves P (body x)) -> preserves P (for_each l body).
Proof.
  induction l as [| x l IH]; intros Hb; simpl.
  - apply preserves_ret.
  - apply preserves_bind.
    + apply Hb; now left.
    + intros _. apply IH. intros y Hy. apply Hb; now right.
Qed.

(** Structural steps of an invariant proof; what is left are the state
    updates themselves. *)
Ltac preserve_step :=
  lazymatch goal with
  | |- preserves _ (ret _) => apply preserves_ret
  | |- preserves _ (raise _) => apply preserves_raise
  | |- preserves _ (lift _) => apply preserves_lift
  | |- preserves _ (gets _) => apply preserves_gets
  | |- preserves _ (bind (ret _) _) => apply preserves_bind_ret
  | |- preserves _ (bind (raise _) _) => apply preserves_bind_raise
  | |- preserves _ (bind (lift _) _) => apply preserves_bind_lift; intros ? ?
  | |- preserves _ (bind _ _) => apply preserves_bind; [ | intro ]
  | |- preserves _ (try_except _ _) => apply preserves_try_except; [ | intro ]
  | |- preserves _ (for_each _ _) => apply preserves_for_each; intros ? ?
  | |- preserves _ (if ?b then _ else _) => destruct b eqn:?
  | |- preserves _ (match ?x with _ => _ end) => destruct x eqn:?
  end.

Ltac preserve := repeat preserve_step.

(** Observations on a trace that was extended by explicit events. *)
Ltac trace_simpl :=
  unfold alert_calls, send_attempts, delete_requests, metric_lookups, error_logs, calls;
  simpl; repeat rewrite flat_map_app; repeat rewrite filter_app; simpl;
  repeat rewrite app_nil_r.


(** ** Strings *)

Lemma append_inj_r (p a b : string) : (p ++ a = p ++ b)%string -> a = b.
Proof.
  induction p as [| c p IH]; simpl; intros H.
  - exact H.
  - injection H as H. auto.
Qed.

Lemma split_comma_nonempty (s : string) : split_comma s <> [].
Proof.
  destruct s as [| c s]; simpl.
  - discriminate.
  - destruct (Ascii.eqb c ","%char); [discriminate |].
    destruct (split_comma s); discriminate.
Qed.

Lemma split_comma_truthy (s : string) : truthy_list (split_comma s) = true.
Proof.
  pose proof (split_comma_nonempty s) as H.
  destruct (split_comma s); [congruence | reflexivity].
Qed.

(** ** The sentinel is never classified *)

Section Sentinel.

Variable w : world.
Variables cutoff_date alert_date : datetime.

Lemma spares_emit_log lvl msg st :
  spares_sentinel st -> spares_sentinel (emit (Log lvl msg) st).
Proof.
  intros (Ha & Hd & Ht). repeat split; simpl; auto.
  apply Forall_app; split; auto. repeat constructor.
Qed.

Lemma spares_set_ticks n st : spares_sentinel st -> spares_sentinel (set_ticks n st).
Proof. intros H; exact H. Qed.

Lemma spares_set_versions f st :
  spares_sentinel st -> spares_sentinel (set_versions f st).
Proof. intros H; exact H. Qed.

Lemma spares_emit st e :
  event_spares_sentinel e -> spares_sentinel st -> spares_sentinel (emit e st).
Proof.
  intros He (Ha & Hd & Ht). repeat split; simpl; auto.
  apply Forall_app; split; auto.
Qed.

Lemma preserves_spares_log lvl msg : preserves spares_sentinel (log lvl msg).
Proof. apply preserves_modify. intros st. apply spares_emit_log. Qed.

Lemma preserves_spares_now : preserves spares_sentinel (now w).
Proof. intros st H. exact H. Qed.

Lemma preserves_spares_count f v :
  v <> sentinel ->
  preserves spares_sentinel (get_invocation_count w f v cutoff_date).
Proof.
  intros Hv. unfold get_invocation_count, cloudwatch_get_metric_statistics.
  preserve; try apply preserves_spares_log; try apply preserves_spares_now.
  apply preserves_modify. intros st. apply spares_emit. simpl.
  intros H. apply append_inj_r in H. apply (append_inj_r ":") in H. auto.
Qed.

Lemma preserves_spares_delete f v :
  v <> sentinel ->
  preserves spares_sentinel (delete_lambda_version w f v).
Proof.
  intros Hv. unfold delete_lambda_version, lambda_delete_function.
  preserve; try apply preserves_spares_log.
  - apply preserves_modify. intros st. apply spares_emit. exact Hv.
  - apply preserves_modify. intros st. apply spares_set_versions.
Qed.

Lemma preserves_spares_alert a d :
  preserves spares_sentinel (send_cleanup_alert w a d).
Proof.
  unfold send_cleanup_alert, ses_send_email.
  preserve; try apply preserves_spares_log;
    apply preserves_modify; intros st; apply spares_emit; exact I.
Qed.

Lemma preserves_spares_version f v :
  preserves spares_sentinel (process_version w cutoff_date alert_date f v).
Proof.
  unfold process_version.
  destruct (String.eqb (Version v) "$LATEST") eqn:Hs; [apply preserves_ret |].
  apply String.eqb_neq in Hs.
  unfold parse_last_modified.
  preserve; try apply preserves_spares_log;
    try (apply preserves_spares_count; exact Hs);
    try (apply preserves_spares_delete; exact Hs).
  - apply preserves_modify. intros st (Ha & Hd & Ht). repeat split; auto; simpl.
    apply Forall_app; split; auto.
  - apply preserves_modify. intros st (Ha & Hd & Ht). repeat split; auto; simpl.
    apply Forall_app; split; auto.
Qed.

Lemma preserves_spares_all :
  preserves spares_sentinel (process_all w cutoff_date alert_date).
Proof.
  unfold process_all, process_function.
  preserve; try apply preserves_spares_log.
  apply preserves_spares_version.
Qed.

Lemma preserves_spares_cleanup :
  preserves spares_sentinel (cleanup w cutoff_date alert_date).
Proof.
  unfold cleanup, notify.
  preserve; try apply preserves_spares_log;
    try apply preserves_spares_all; try apply preserves_spares_alert.
  - apply preserves_modify. intros st (Ha & Hd & Ht). repeat split; simpl; auto.
  - apply preserves_modify. intros st (Ha & Hd & Ht). repeat split; simpl; auto.
Qed.

End Sentinel.

Lemma preserves_spares_handler (w : world) : preserves spares_sentinel (lambda_handler w).
Proof.
  unfold lambda_handler.
  preserve; try apply preserves_spares_log; try apply preserves_spares_now.
  apply preserves_spares_cleanup.
Qed.

Lemma spares_metric_lookups (tr : list event) :
  Forall event_spares_sentinel tr ->
  Forall (fun fr => snd fr <> (fst fr ++ ":" ++ sentinel)%string) (metric_lookups tr).
Proof.
  induction 1 as [| e tr He _ IH]; simpl.
  - constructor.
  - apply Forall_app; split; [| exact IH].
    destruct e; simpl; auto.
Qed.

Lemma spares_delete_requests (tr : list event) :
  Forall event_spares_sentinel tr ->
  Forall (fun fq => snd fq <> sentinel) (delete_requests tr).
Proof.
  induction 1 as [| e tr He _ IH]; simpl.
  - constructor.
  - apply Forall_app; split; [| exact IH].
    destruct e; simpl; auto.
Qed.

Lemma spares_initial fns vers : spares_sentinel (initial_state fns vers).
Proof. repeat split; constructor. Qed.

Lemma spares_untouched st : spares_sentinel st -> sentinel_untouched st.
Proof.
  intros (Ha & Hd & Ht). repeat split; auto using spares_metric_lookups, spares_delete_requests.
Qed.

(** C5. In every run the version ["$LATEST"] is left alone: no entry of
    [alert_versions] or [deleted_versions] carries it, no metric lookup asks
    for the resource [function:$LATEST], and no delete request names it as
    qualifier.  This holds for the handler as written and for lines 57-97
    run with any two dates, whether the run returns or raises. *)
Theorem sentinel_never_classified (w : world) (cutoff_date alert_date : datetime)
    (fns : list (list string)) (vers : string -> list (list version_cfg)) :
  sentinel_untouched (snd (lambda_handler w (initial_state fns vers))) /\
  sentinel_untouched (snd (cleanup w cutoff_date alert_date (initial_state fns vers))).
Proof.
  split; apply spares_untouched.
  - apply preserves_spares_handler, spares_initial.
  - apply preserves_spares_cleanup, spares_initial.
Qed.

(** ** Loops that stop at the first failure *)

Lemma for_each_first {A} (Q : state -> Prop) (res : A -> option (exn + unit))
    (body : A -> M unit) (l : list A) :
  (forall x st r, In x l -> Q st -> res x = Some r ->
     fst (body x st) = r /\ Q (snd (body x st))) ->
  forall st r, Q st -> first_failure res l = Some r ->
    fst (for_each l body st) = r /\ Q (snd (for_each l body st)).
Proof.
  induction l as [| x l IH]; intros Hb st r HQ Hr; simpl in *.
  - injection Hr as <-. split; [reflexivity | exact HQ].
  - rewrite bind_run.
    destruct (res x) as [rx |] eqn:Hx; [| discriminate].
    destruct (Hb x st rx (or_introl eq_refl) HQ Hx) as [Hrx HQ'].
    destruct (body x st) as [[e | []] st']; simpl in *; subst rx.
    + injection Hr as <-. split; [reflexivity | exact HQ'].
    + apply IH; [| exact HQ' | exact Hr].
      intros y st1 ry Hy. apply Hb. now right.
Qed.

Lemma first_failure_concat {A} (res : A -> option (exn + unit)) (ls : list (list A)) :
  first_failure (first_failure res) ls = first_failure res (List.concat ls).
Proof.
  induction ls as [| l ls IH]; simpl; [reflexivity |].
  rewrite IH. clear IH.
  induction l as [| x l IHl]; simpl.
  - destruct (first_failure res (List.concat ls)) as [[e | []] |]; reflexivity.
  - destruct (res x) as [[e | u] |]; [reflexivity | exact IHl | reflexivity].
Qed.

Lemma find_app {A} (p : A -> bool) (l1 l2 : list A) :
  find p (l1 ++ l2) = match find p l1 with Some x => Some x | None => find p l2 end.
Proof.
  induction l1 as [| x l1 IH]; simpl; [reflexivity |].
  destruct (p x); [reflexivity | exact IH].
Qed.

(** ** The loops, one step unfolded *)

Section Unfolding.

Variable w : world.
Variables cutoff_date alert_date : datetime.

Lemma process_function_eq f st :
  process_function w cutoff_date alert_date f st
  = for_each (version_pages st f)
      (fun version_page =>
         for_each version_page (process_version w cutoff_date alert_date f))
      (emit (Log INFO (MsgProcessing f)) st).
Proof. reflexivity. Qed.

Lemma process_all_eq st :
  process_all w cutoff_date alert_date st
  = for_each (function_pages st)
      (fun page => for_each page (process_function w cutoff_date alert_date)) st.
Proof. reflexivity. Qed.

Lemma cleanup_eq st :
  cleanup w cutoff_date alert_date st
  = (process_all w cutoff_date alert_date ;; notify w ;; log INFO MsgCompleted)
      (set_deleted [] (set_alert [] st)).
Proof. reflexivity. Qed.

Lemma notify_eq st :
  notify w st
  = if truthy_list (alert_versions st) || truthy_list (deleted_versions st)
    then send_cleanup_alert w (alert_versions st) (deleted_versions st) st
    else (inr tt, st).
Proof.
  unfold notify, bind, gets.
  destruct (truthy_list (alert_versions st) || truthy_list (deleted_versions st));
    reflexivity.
Qed.

End Unfolding.

Lemma lambda_handler_eq (w : world) (st : state) :
  lambda_handler w st
  = match cleanup w (handler_cutoff w st) (handler_alert w st) (handler_entry w st) with
    | (inr a, st') => (inr a, st')
    | (inl e, st') => (inl e, emit (Log ERROR (MsgCleanupError e)) st')
    end.
Proof. reflexivity. Qed.

(** ** The handler as written: a naive cutoff *)

Section Naive.

Variable w : world.
Variables cutoff_date alert_date : datetime.
Hypothesis cutoff_naive : tzinfo cutoff_date = None.

Variable fns : list (list string).
Variable vers : string -> list (list version_cfg).

Lemma quiet_log lvl msg st :
  lvl <> ERROR -> quiet fns vers st -> quiet fns vers (emit (Log lvl msg) st).
Proof.
  intros Hl (Hf & Hv & Ha & Hd & Hc & He). repeat split; simpl; auto.
  - unfold calls in *. rewrite filter_app, Hc. reflexivity.
  - unfold error_logs in *. rewrite flat_map_app, He.
    destruct lvl; simpl; congruence.
Qed.

Lemma process_version_naive f v st r :
  quiet fns vers st -> naive_outcome w v = Some r ->
  fst (process_version w cutoff_date alert_date f v st) = r /\
  quiet fns vers (snd (process_version w cutoff_date alert_date f v st)).
Proof.
  intros HQ. unfold process_version, naive_outcome, naive_failure, is_sentinel, sentinel.
  destruct (String.eqb (Version v) "$LATEST").
  { intros H. injection H as <-. split; [reflexivity | exact HQ]. }
  unfold parse_last_modified.
  destruct (strptime w (LastModified v)) as [[fields [offset |]] |]; simpl;
    intros H; try discriminate; injection H as <-.
  - unfold bind, ret, log, modify, lift, dt_gt; simpl.
    rewrite cutoff_naive; simpl.
    split; [reflexivity | apply quiet_log; [discriminate | exact HQ]].
  - split; [reflexivity | exact HQ].
Qed.

Lemma process_function_naive f st r :
  quiet fns vers st ->
  first_failure (naive_outcome w) (List.concat (vers f)) = Some r ->
  fst (process_function w cutoff_date alert_date f st) = r /\
  quiet fns vers (snd (process_function w cutoff_date alert_date f st)).
Proof.
  intros HQ Hr. rewrite process_function_eq. cbn [emit version_pages].
  destruct HQ as (Hf & Hv & Ha & Hd & Hc & He).
  assert (HQ' : quiet fns vers (emit (Log INFO (MsgProcessing f)) st))
    by (apply quiet_log; [discriminate | repeat split; assumption]).
  rewrite Hv. rewrite <- first_failure_concat in Hr.
  apply (for_each_first (quiet fns vers) (first_failure (naive_outcome w)));
    [| exact HQ' | exact Hr].
  intros page st1 r1 _ HQ1 Hr1.
  apply (for_each_first (quiet fns vers) (naive_outcome w)); [| exact HQ1 | exact Hr1].
  intros v st2 r2 _ HQ2 Hr2. now apply process_version_naive.
Qed.

Lemma process_all_naive st r :
  quiet fns vers st -> naive_run_outcome w fns vers = Some r ->
  fst (process_all w cutoff_date alert_date st) = r /\
  quiet fns vers (snd (process_all w cutoff_date alert_date st)).
Proof.
  intros HQ Hr. rewrite process_all_eq. unfold naive_run_outcome in Hr.
  destruct HQ as (Hf & Hv & Ha & Hd & Hc & He). rewrite Hf.
  rewrite <- first_failure_concat in Hr.
  apply (for_each_first (quiet fns vers)
           (first_failure (fun f => first_failure (naive_outcome w) (List.concat (vers f)))));
    [| repeat split; assumption | exact Hr].
  intros page st1 r1 _ HQ1 Hr1.
  apply (for_each_first (quiet fns vers)
           (fun f => first_failure (naive_outcome w) (List.concat (vers f))));
    [| exact HQ1 | exact Hr1].
  intros f st2 r2 _ HQ2 Hr2. now apply process_function_naive.
Qed.

Lemma cleanup_naive st r :
  function_pages st = fns -> version_pages st = vers ->
  calls (trace st) = [] -> error_logs (trace st) = [] ->
  naive_run_outcome w fns vers = Some r ->
  fst (cleanup w cutoff_date alert_date st) = r /\
  quiet fns vers (snd (cleanup w cutoff_date alert_date st)).
Proof.
  intros Hf Hv Hc He Hout. rewrite cleanup_eq.
  assert (HQ : quiet fns vers (set_deleted [] (set_alert [] st)))
    by (repeat split; assumption).
  destruct (process_all_naive _ _ HQ Hout) as [Hr HQ'].
  rewrite bind_run.
  destruct (process_all w cutoff_date alert_date (set_deleted [] (set_alert [] st)))
    as [[e | []] st1]; simpl in *.
  - split; [exact Hr | exact HQ'].
  - destruct HQ' as (Hf1 & Hv1 & Ha1 & Hd1 & Hc1 & He1).
    rewrite bind_run, notify_eq, Ha1, Hd1. simpl.
    split; [exact Hr |].
    apply quiet_log; [discriminate | repeat split; assumption].
Qed.

End Naive.

(** The loops fail at the first version that is not the sentinel. *)
Lemma naive_outcome_find (w : world) (l : list version_cfg) :
  first_failure (naive_outcome w) l
  = match find (fun v => negb (is_sentinel v)) l with
    | Some v => option_map inl (naive_failure w v)
    | None => Some (inr tt)
    end.
Proof.
  induction l as [| v l IH]; simpl; [reflexivity |].
  unfold naive_outcome at 1. destruct (is_sentinel v); simpl; [exact IH |].
  destruct (naive_failure w v); reflexivity.
Qed.

Lemma find_map_pair (f : string) (l : list version_cfg) :
  find (fun p : string * version_cfg => negb (is_sentinel (snd p))) (map (pair f) l)
  = option_map (pair f) (find (fun v => negb (is_sentinel v)) l).
Proof.
  induction l as [| v l IH]; simpl; [reflexivity |].
  destruct (is_sentinel v); simpl; [exact IH | reflexivity].
Qed.

Lemma naive_run_outcome_first (w : world) fns vers :
  naive_run_outcome w fns vers
  = match first_version (initial_state fns vers) with
    | Some (_, v) => option_map inl (naive_failure w v)
    | None => Some (inr tt)
    end.
Proof.
  unfold naive_run_outcome, first_version, enumeration, listed_functions, listed_versions.
  cbn [initial_state function_pages version_pages].
  induction (List.concat fns) as [| f F IH]; simpl; [reflexivity |].
  rewrite find_app, find_map_pair, naive_outcome_find.
  destruct (find (fun v => negb (is_sentinel v)) (List.concat (vers f))); simpl.
  - destruct (naive_failure w v); reflexivity.
  - exact IH.
Qed.

(** The handler as written, from a fresh state, where the outcome of the
    loops does not depend on the dates: nothing is called, and what it
    raises it has logged. *)
Lemma lambda_handler_naive (w : world) fns vers (r0 : exn + unit) :
  naive_run_outcome w fns vers = Some r0 ->
  let r := lambda_handler w (initial_state fns vers) in
  fst r = r0 /\
  function_pages (snd r) = fns /\ version_pages (snd r) = vers /\
  alert_versions (snd r) = [] /\ deleted_versions (snd r) = [] /\
  calls (trace (snd r)) = [] /\
  error_logs (trace (snd r))
  = match r0 with
    | inl e => [MsgCleanupError e]
    | inr _ => []
    end.
Proof.
  intros Hout r. subst r. rewrite lambda_handler_eq.
  destruct (cleanup_naive w (handler_cutoff w (initial_state fns vers))
              (handler_alert w (initial_state fns vers)) eq_refl fns vers
              (handler_entry w (initial_state fns vers)) r0
              eq_refl eq_refl eq_refl eq_refl Hout)
    as [Hr (Hf & Hv & Ha & Hd & Hc & He)].
  destruct (cleanup w _ _ _) as [[e | []] st1]; simpl in *; rewrite <- Hr.
  - repeat split; auto.
    + unfold calls in *. rewrite filter_app, Hc. reflexivity.
    + unfold error_logs in *. rewrite flat_map_app, He. reflexivity.
  - repeat split; auto.
Qed.

(** C4. Whenever the registry lists a version other than the sentinel, the
    handler as written aborts at the first such version [v]: its
    [LastModified], which carries a UTC offset as the registry's timestamps
    do, parses to a timezone-aware value, the comparison of line 79 against
    the naive cutoff raises [TypeError], the handler logs the exception and
    raises it again.  Up to that point no client was called (no metric
    lookup, no delete request, no email), both lists are empty and the
    registry is unchanged.  The two dates of lines 54-55 are taken within
    the range of [datetime]; outside it those lines raise before the
    registry is asked. *)
Theorem naive_cutoff_aborts_run (w : world) (fns : list (list string))
    (vers : string -> list (list version_cfg)) (f : string) (v : version_cfg)
    (fields offset : Z) :
  dates_in_range w (initial_state fns vers) ->
  first_version (initial_state fns vers) = Some (f, v) ->
  strptime w (LastModified v) = Some (fields, Some offset) ->
  let st0 := initial_state fns vers in
  let r := lambda_handler w st0 in
  dt_gt (mk_datetime fields (Some offset)) (handler_cutoff w st0) = inl TypeError /\
  fst r = inl TypeError /\
  error_logs (trace (snd r)) = [MsgCleanupError TypeError] /\
  calls (trace (snd r)) = [] /\
  alert_versions (snd r) = [] /\ deleted_versions (snd r) = [] /\
  function_pages (snd r) = fns /\ version_pages (snd r) = vers.
Proof.
  intros _ Hfirst Hparse st0 r.
  assert (Hout : naive_run_outcome w fns vers = Some (inl TypeError)).
  { rewrite naive_run_outcome_first, Hfirst. unfold naive_failure.
    rewrite Hparse. reflexivity. }
  destruct (lambda_handler_naive w fns vers _ Hout) as (Hr & Hf & Hv & Ha & Hd & Hc & He).
  fold st0 in Hr, Hf, Hv, Ha, Hd, Hc, He. fold r in Hr, Hf, Hv, Ha, Hd, Hc, He.
  split; [reflexivity | repeat split; assumption].
Qed.

Lemma naive_cutoff_aborts_run_witness :
  first_version scenario_state
    = Some ("fn", mk_version "1" "2024-09-27T00:00:00.000+0000") /\
  fst (lambda_handler scenario_world scenario_state) = inl TypeError /\
  calls (trace (snd (lambda_handler scenario_world scenario_state))) = [].
Proof.
  split; [reflexivity |].
  assert (Hrange : dates_in_range scenario_world scenario_state)
    by (repeat split; vm_compute; congruence).
  destruct (naive_cutoff_aborts_run scenario_world [["fn"]]
              (fun f => if String.eqb f "fn" then scenario_versions else [])
              "fn" (mk_version "1" "2024-09-27T00:00:00.000+0000")
              (midnight 2024 9 27) 0 Hrange eq_refl eq_refl)
    as (_ & Hr & _ & Hc & _).
  split; [exact Hr | exact Hc].
Defined.

(** ** Only versions at or before the cutoff are deleted *)

Lemma concat_remove_version (q : string) (pages : list (list version_cfg)) :
  List.concat (remove_version q pages)
  = filter (fun v => negb (String.eqb (Version v) q)) (List.concat pages).
Proof.
  induction pages as [| p pages IH]; simpl; [reflexivity |].
  rewrite filter_app, IH. reflexivity.
Qed.

Section Justified.

Variable w : world.
Variables cutoff_date alert_date : datetime.
Variable st0 : state.

Let J := deletions_justified w cutoff_date st0.

Lemma justified_emit e st :
  delete_requests [e] = [] -> J st -> J (emit e st).
Proof.
  intros He (Hs & Hd & Hr). repeat split; auto. simpl.
  unfold delete_requests in *. rewrite flat_map_app, He, app_nil_r. exact Hr.
Qed.

Lemma preserves_justified_log lvl msg : preserves J (log lvl msg).
Proof. apply preserves_modify. intros st. now apply justified_emit. Qed.

Lemma preserves_justified_now : preserves J (now w).
Proof. intros st H. exact H. Qed.

Lemma preserves_justified_count f v :
  preserves J (get_invocation_count w f v cutoff_date).
Proof.
  unfold get_invocation_count, cloudwatch_get_metric_statistics.
  preserve; try apply preserves_justified_log; try apply preserves_justified_now.
  apply preserves_modify. intros st. now apply justified_emit.
Qed.

(** The delete request for an entry that is already in the list. *)
Lemma justified_delete f q st :
  J st -> In (f, q) (map entry_key (deleted_versions st)) ->
  J (snd (delete_lambda_version w f q st)).
Proof.
  intros HJ Hin.
  set (J' := fun st => J st /\ In (f, q) (map entry_key (deleted_versions st))).
  assert (HP : preserves J' (delete_lambda_version w f q)).
  { unfold delete_lambda_version, lambda_delete_function.
    preserve; apply preserves_modify; intros s [(Hs & Hd & Hr) Hk]; (split; [| exact Hk]).
    - repeat split; auto. simpl.
      unfold delete_requests in *. rewrite flat_map_app. simpl.
      apply incl_app; [exact Hr |]. intros x [<- | []]. exact Hk.
    - repeat split; auto. simpl.
      intros g. unfold listed_versions. simpl.
      destruct (String.eqb g f); [| apply Hs].
      rewrite concat_remove_version.
      intros x Hx. apply filter_In in Hx. apply Hs, Hx.
    - apply justified_emit; [reflexivity | repeat split; auto].
    - apply justified_emit; [reflexivity | repeat split; auto]. }
  apply (HP st). split; assumption.
Qed.

Lemma preserves_justified_tail f v lm :
  In v (listed_versions st0 f) -> parsed w v = Some lm ->
  dt_gt lm cutoff_date = inr false ->
  preserves J
    (modify (fun st => set_deleted (deleted_versions st ++ [(f, Version v, lm)]) st) ;;
     delete_lambda_version w f (Version v)).
Proof.
  intros Hin Hp Hgt st (Hs & Hd & Hr).
  rewrite bind_run. unfold modify at 1. cbn iota beta.
  apply justified_delete.
  - repeat split; auto; simpl.
    + apply Forall_app; split; [exact Hd |].
      constructor; [| constructor]. split; [exact Hgt |].
      exists v. repeat split; assumption.
    + rewrite map_app. apply incl_appl, Hr.
  - simpl. rewrite map_app. apply in_or_app. right. now left.
Qed.

Lemma preserves_justified_version f v :
  In v (listed_versions st0 f) ->
  preserves J (process_version w cutoff_date alert_date f v).
Proof.
  intros Hin. unfold process_version.
  destruct (String.eqb (Version v) "$LATEST"); [apply preserves_ret |].
  unfold parse_last_modified.
  destruct (strptime w (LastModified v)) as [[fields offset] |] eqn:Hp;
    [| preserve].
  assert (Hparsed : parsed w v = Some (mk_datetime fields offset))
    by (unfold parsed; rewrite Hp; reflexivity).
  cbv iota beta.
  repeat first
    [ apply preserves_justified_log
    | apply preserves_justified_count
    | apply (preserves_justified_tail f v _ Hin Hparsed); congruence
    | preserve_step ].
Qed.

Lemma preserves_justified_function f :
  preserves J (process_function w cutoff_date alert_date f).
Proof.
  intros st HJ. rewrite process_function_eq.
  assert (HJ' : J (emit (Log INFO (MsgProcessing f)) st))
    by (now apply justified_emit).
  revert HJ'. apply preserves_for_each. intros page Hpage.
  apply preserves_for_each. intros v Hv.
  apply preserves_justified_version.
  destruct HJ as (Hs & _). apply Hs.
  unfold listed_versions. apply in_concat. exists page. split; assumption.
Qed.

Lemma preserves_justified_all :
  preserves J (process_all w cutoff_date alert_date).
Proof.
  unfold process_all. preserve. apply preserves_justified_function.
Qed.

Lemma preserves_justified_alert a d : preserves J (send_cleanup_alert w a d).
Proof.
  unfold send_cleanup_alert, ses_send_email.
  preserve; try apply preserves_justified_log;
    apply preserves_modify; intros st; now apply justified_emit.
Qed.

End Justified.

Lemma cleanup_justified (w : world) (cutoff_date alert_date : datetime) (st : state) :
  delete_requests (trace st) = [] ->
  deletions_justified w cutoff_date st (snd (cleanup w cutoff_date alert_date st)).
Proof.
  intros Hnone. rewrite cleanup_eq.
  assert (H0 : deletions_justified w cutoff_date st (set_deleted [] (set_alert [] st))).
  { repeat split; simpl; auto using incl_refl. rewrite Hnone. apply incl_refl. }
  revert H0.
  apply (preserves_bind (deletions_justified w cutoff_date st)).
  - apply preserves_justified_all.
  - intros _. unfold notify. preserve;
      try apply preserves_justified_log; apply preserves_justified_alert.
Qed.

Lemma handler_justified (w : world) (st : state) :
  delete_requests (trace st) = [] ->
  deletions_justified w (handler_cutoff w st) st (snd (lambda_handler w st)).
Proof.
  intros Hnone. rewrite lambda_handler_eq.
  assert (H : deletions_justified w (handler_cutoff w st) st
                (snd (cleanup w (handler_cutoff w st) (handler_alert w st)
                        (handler_entry w st)))).
  { apply (cleanup_justified w (handler_cutoff w st) (handler_alert w st)
             (handler_entry w st)).
    simpl. trace_simpl. exact Hnone. }
  destruct (cleanup w _ _ (handler_entry w st)) as [[e | []] st1]; simpl in *.
  - now apply justified_emit.
  - exact H.
Qed.

Lemma NoDup_map_eq {A B} (g : A -> B) (l : list A) (a b : A) :
  NoDup (map g l) -> In a l -> In b l -> g a = g b -> a = b.
Proof.
  induction l as [| x l IH]; simpl; intros Hnd Ha Hb Hg; [contradiction |].
  inversion Hnd as [| y ys Hx Hnd']; subst.
  destruct Ha as [-> | Ha], Hb as [-> | Hb].
  - reflexivity.
  - exfalso. apply Hx. rewrite Hg. now apply in_map.
  - exfalso. apply Hx. rewrite <- Hg. now apply in_map.
  - now apply IH.
Qed.

Lemma delete_requests_calls (tr : list event) :
  delete_requests (calls tr) = delete_requests tr.
Proof.
  induction tr as [| e tr IH]; simpl; [reflexivity |].
  destruct e; simpl; rewrite IH; reflexivity.
Qed.

Lemma scenario_unique : unique_versions scenario_state.
Proof.
  intros f. unfold listed_versions, scenario_state, initial_state; simpl.
  destruct (String.eqb f "fn"); simpl; [| constructor].
  repeat (constructor; [simpl; intuition discriminate |]). constructor.
Qed.

Lemma justified_never_deleted (w : world) (cutoff_date : datetime) (st0 st : state)
    (f : string) (v : version_cfg) (lm : datetime) :
  unique_versions st0 ->
  In v (listed_versions st0 f) ->
  parsed w v = Some lm ->
  dt_gt lm cutoff_date = inr true ->
  deletions_justified w cutoff_date st0 st ->
  never_deleted f v st.
Proof.
  intros Hu Hin Hp Hgt (_ & Hd & Hi).
  assert (Hnot : ~ In (f, Version v) (map entry_key (deleted_versions st))).
  { rewrite Forall_forall in Hd.
    intros Hk. apply in_map_iff in Hk. destruct Hk as ([[f' q] lm'] & Hkey & He).
    destruct (Hd _ He) as (Hold & v' & Hv' & Hq & Hp').
    unfold entry_key, entry_version, entry_modified in *; simpl in *.
    injection Hkey as -> ->.
    assert (v' = v) by (apply (NoDup_map_eq Version _ _ _ (Hu f)); assumption).
    subst v'. rewrite Hp in Hp'. injection Hp' as <-. congruence. }
  split; [| exact Hnot].
  intros Hr. apply Hnot, Hi, Hr.
Qed.

(** C2. A version whose [last_modified] is newer than the cutoff is never
    the object of a delete request and never enters [deleted_versions],
    whatever the metrics say.  Stated for a registry whose version
    identifiers are unique within a function, for lines 57-97 under any two
    dates and for the handler as written with the cutoff it computes. *)
Theorem newer_versions_never_deleted (w : world) (cutoff_date alert_date : datetime)
    (fns : list (list string)) (vers : string -> list (list version_cfg))
    (f : string) (v : version_cfg) (lm : datetime) :
  unique_versions (initial_state fns vers) ->
  In v (listed_versions (initial_state fns vers) f) ->
  parsed w v = Some lm ->
  (dt_gt lm cutoff_date = inr true ->
   never_deleted f v (snd (cleanup w cutoff_date alert_date (initial_state fns vers)))) /\
  (dt_gt lm (handler_cutoff w (initial_state fns vers)) = inr true ->
   never_deleted f v (snd (lambda_handler w (initial_state fns vers)))).
Proof.
  intros Hu Hin Hp. split; intros Hgt.
  - apply (justified_never_deleted w cutoff_date (initial_state fns vers) _ f v lm);
      try assumption.
    apply cleanup_justified. reflexivity.
  - apply (justified_never_deleted w (handler_cutoff w (initial_state fns vers))
             (initial_state fns vers) _ f v lm); try assumption.
    apply handler_justified. reflexivity.
Qed.

Lemma newer_versions_never_deleted_witness :
  never_deleted "fn" (mk_version "4" "2024-10-22T00:00:00.000+0000")
    (snd (cleanup scenario_world aware_cutoff aware_alert scenario_state)).
Proof.
  refine (proj1 (newer_versions_never_deleted scenario_world aware_cutoff aware_alert
            [["fn"]] (fun f => if String.eqb f "fn" then scenario_versions else [])
            "fn" (mk_version "4" "2024-10-22T00:00:00.000+0000")
            (mk_datetime (midnight 2024 10 22) (Some 0))
            scenario_unique _ eq_refl) eq_refl).
  simpl. tauto.
Defined.

(** ** The notification step *)

Lemma recipients_truthy (w : world) : truthy_list (EMAIL_RECIPIENTS w) = true.
Proof. apply split_comma_truthy. Qed.

(** One call of [send_cleanup_alert]: it returns, leaves the lists and the
    registry alone, and attempts one send when a sender is configured. *)
Lemma send_cleanup_alert_run (w : world) (a d : list entry) (st : state) :
  let r := send_cleanup_alert w a d st in
  fst r = inr tt /\
  alert_versions (snd r) = alert_versions st /\
  deleted_versions (snd r) = deleted_versions st /\
  function_pages (snd r) = function_pages st /\
  version_pages (snd r) = version_pages st /\
  delete_requests (trace (snd r)) = delete_requests (trace st) /\
  alert_calls (trace (snd r)) = (alert_calls (trace st) ++ [(a, d)])%list /\
  send_attempts (trace (snd r)) = (send_attempts (trace st) ++ attempted_send w a d)%list.
Proof.
  unfold send_cleanup_alert, attempted_send, sender_of.
  rewrite recipients_truthy.
  destruct (EMAIL_SENDER w) as [[| c s] |]; simpl.
  - repeat split; trace_simpl; reflexivity.
  - unfold ses_send_email, try_except, bind, modify, log, raise, ret; simpl.
    destruct (send_fault w (String c s) (EMAIL_RECIPIENTS w) (message_body w a d));
      simpl; repeat split; trace_simpl; reflexivity.
  - repeat split; trace_simpl; reflexivity.
Qed.

Section Unnotified.

Variable w : world.
Variables cutoff_date alert_date : datetime.

Lemma unnotified_emit e st :
  alert_calls [e] = [] -> send_attempts [e] = [] ->
  unnotified st -> unnotified (emit e st).
Proof.
  intros Ha Hs (H1 & H2). split; simpl.
  - unfold alert_calls in *. rewrite flat_map_app, H1, Ha. reflexivity.
  - unfold send_attempts in *. rewrite flat_map_app, H2, Hs. reflexivity.
Qed.

Lemma preserves_unnotified_all :
  preserves unnotified (process_all w cutoff_date alert_date).
Proof.
  unfold process_all, process_function, process_version, parse_last_modified,
    get_invocation_count, cloudwatch_get_metric_statistics,
    delete_lambda_version, lambda_delete_function, log, now.
  repeat first
    [ apply preserves_modify; intros ? ?;
      first [ assumption | apply unnotified_emit; [reflexivity | reflexivity | assumption] ]
    | lazymatch goal with |- preserves _ (fun _ => _) => intros ? ?; assumption end
    | preserve_step ].
Qed.

End Unnotified.

Lemma cleanup_alert_calls (w : world) (cutoff_date alert_date : datetime) (st0 : state) :
  unnotified st0 ->
  let r := cleanup w cutoff_date alert_date st0 in
  let st := snd r in
  alert_calls (trace st)
  = match fst r with
    | inr _ =>
        if truthy_list (alert_versions st) || truthy_list (deleted_versions st)
        then [(alert_versions st, deleted_versions st)]
        else []
    | inl _ => []
    end /\
  send_attempts (trace st)
  = flat_map (fun c => attempted_send w (fst c) (snd c)) (alert_calls (trace st)).
Proof.
  intros H0 r st. subst st r. rewrite cleanup_eq, bind_run.
  assert (H1 : unnotified (set_deleted [] (set_alert [] st0))) by exact H0.
  apply (preserves_unnotified_all w cutoff_date alert_date) in H1.
  destruct (process_all w cutoff_date alert_date _) as [[e | []] st1];
    simpl in H1; destruct H1 as (Ha & Hs).
  - simpl. rewrite Ha, Hs. split; reflexivity.
  - rewrite bind_run, notify_eq.
    destruct (truthy_list (alert_versions st1) || truthy_list (deleted_versions st1))
      eqn:Hlists.
    + destruct (send_cleanup_alert_run w (alert_versions st1) (deleted_versions st1) st1)
        as (Hr & Hal & Hdl & _ & _ & _ & Hac & Hsa).
      destruct (send_cleanup_alert w (alert_versions st1) (deleted_versions st1) st1)
        as [[e | []] st2]; simpl in *; [discriminate |].
      rewrite Hal, Hdl, Hlists. trace_simpl.
      fold (alert_calls (trace st2)). fold (send_attempts (trace st2)).
      rewrite Hac, Hsa, Ha, Hs. simpl. rewrite app_nil_r. split; reflexivity.
    + simpl. rewrite Hlists. trace_simpl.
      fold (alert_calls (trace st1)). fold (send_attempts (trace st1)).
      rewrite Ha, Hs. split; reflexivity.
Qed.

(** C6. Once the loops have gone through every function, the notification
    routine is called exactly once, with both lists, when one of them is not
    empty, and not at all when both are empty; a run whose loops raise calls
    it not at all.  Each call attempts at most one send: exactly one when a
    sender address is configured, none otherwise.  Stated for lines 57-97
    under any two dates and for the handler as written. *)
Theorem notifier_invoked_once (w : world) (cutoff_date alert_date : datetime)
    (fns : list (list string)) (vers : string -> list (list version_cfg)) :
  let r := cleanup w cutoff_date alert_date (initial_state fns vers) in
  let r' := lambda_handler w (initial_state fns vers) in
  (notified_once r /\
   send_attempts (trace (snd r))
   = flat_map (fun c => attempted_send w (fst c) (snd c)) (alert_calls (trace (snd r)))) /\
  (notified_once r' /\
   send_attempts (trace (snd r'))
   = flat_map (fun c => attempted_send w (fst c) (snd c)) (alert_calls (trace (snd r')))).
Proof.
  intros r r'. split.
  - apply cleanup_alert_calls. split; reflexivity.
  - subst r'. rewrite lambda_handler_eq.
    destruct (cleanup_alert_calls w (handler_cutoff w (initial_state fns vers))
                (handler_alert w (initial_state fns vers))
                (handler_entry w (initial_state fns vers)))
      as [Hn Hs]; [split; reflexivity |].
    unfold notified_once.
    destruct (cleanup w _ _ (handler_entry w (initial_state fns vers)))
      as [[e | []] st1]; cbn [fst snd] in *.
    + trace_simpl. fold (alert_calls (trace st1)). fold (send_attempts (trace st1)).
      rewrite Hs, Hn. split; reflexivity.
    + split; assumption.
Qed.

(** ** What the helpers and the loop body do, exactly *)

(** [get_invocation_count] always returns: the sum of the datapoints, or 0
    when the lookup raised, which it then logged as an error. *)
Lemma get_invocation_count_run (w : world) (f v : string) (c : datetime) (st : state) :
  let r := get_invocation_count w f v c st in
  fst r = inr (invocation_count_at w c (clock w (ticks st)) f v) /\
  same_lists st (snd r) /\ same_registry st (snd r) /\
  ticks (snd r) = S (ticks st) /\
  delete_requests (trace (snd r)) = delete_requests (trace st) /\
  metric_lookups (trace (snd r))
    = (metric_lookups (trace st) ++ [(f, (f ++ ":" ++ v)%string)])%list /\
  error_logs (trace (snd r))
    = (error_logs (trace st)
       ++ match metric_sums w f (f ++ ":" ++ v) c (mk_datetime (clock w (ticks st)) None) with
          | inl e => [MsgMetricError f v e]
          | inr _ => []
          end)%list.
Proof.
  unfold get_invocation_count, cloudwatch_get_metric_statistics, invocation_count_at,
    try_except, bind, now, lift, log, modify, ret, same_lists, same_registry; simpl.
  destruct (metric_sums w f _ c _);
    simpl; repeat split; trace_simpl; reflexivity.
Qed.

(** [delete_lambda_version] always returns; the version leaves the registry
    when the registry raises no fault. *)
Lemma delete_lambda_version_run (w : world) (f q : string) (st : state) :
  let r := delete_lambda_version w f q st in
  fst r = inr tt /\
  same_lists st (snd r) /\
  function_pages (snd r) = function_pages st /\
  ticks (snd r) = ticks st /\
  delete_requests (trace (snd r)) = (delete_requests (trace st) ++ [(f, q)])%list /\
  alert_calls (trace (snd r)) = alert_calls (trace st) /\
  match delete_fault w f q with
  | Some e =>
      version_pages (snd r) = version_pages st /\
      error_logs (trace (snd r)) = (error_logs (trace st) ++ [MsgDeleteFailed q f e])%list
  | None =>
      forall g, listed_versions (snd r) g
                = if String.eqb g f
                  then filter (fun v => negb (String.eqb (Version v) q)) (listed_versions st g)
                  else listed_versions st g
  end.
Proof.
  unfold delete_lambda_version, lambda_delete_function,
    try_except, bind, gets, raise, log, modify, ret, same_lists; simpl.
  destruct (delete_fault w f q) as [e |]; simpl.
  - repeat split; trace_simpl; reflexivity.
  - destruct (has_version q (version_pages st f)) eqn:Hhas; simpl.
    + repeat split; trace_simpl; try reflexivity.
      intros g. unfold listed_versions; simpl.
      destruct (String.eqb g f); [apply concat_remove_version | reflexivity].
    + repeat split; trace_simpl; try reflexivity.
      intros g. unfold listed_versions; simpl.
      destruct (String.eqb g f) eqn:Hg; [| reflexivity].
      apply String.eqb_eq in Hg. subst g.
      symmetry. apply forallb_filter_id.
      unfold has_version in Hhas.
      rewrite forallb_forall. intros x Hx.
      apply in_concat in Hx. destruct Hx as (page & Hpage & Hx).
      destruct (String.eqb (Version x) q) eqn:Hq; [| reflexivity].
      exfalso. apply Bool.not_true_iff_false in Hhas. apply Hhas.
      apply existsb_exists. exists page. split; [exact Hpage |].
      apply existsb_exists. exists x. split; assumption.
Qed.

Section Steps.

Context {A B : Type}.

Lemma bind_ret_run (a : A) (k : A -> M B) st : bind (ret a) k st = k a st.
Proof. reflexivity. Qed.

Lemma bind_raise_run (e : exn) (k : A -> M B) st : bind (raise e) k st = (inl e, st).
Proof. reflexivity. Qed.

Lemma bind_lift_run (r : exn + A) (k : A -> M B) st :
  bind (lift r) k st = match r with inl e => (inl e, st) | inr a => k a st end.
Proof. destruct r; reflexivity. Qed.

Lemma bind_modify_run (g : state -> state) (k : unit -> M B) st :
  bind (modify g) k st = k tt (g st).
Proof. reflexivity. Qed.

Lemma bind_log_run lvl msg (k : unit -> M B) st :
  bind (log lvl msg) k st = k tt (emit (Log lvl msg) st).
Proof. reflexivity. Qed.

End Steps.

Lemma process_version_classified (w : world) (c a : datetime) (f : string)
    (v : version_cfg) (st : state) :
  let r := process_version w c a f v st in
  function_pages (snd r) = function_pages st /\
  (ticks st <= ticks (snd r))%nat /\
  version_effect w f v (classify w c a (clock w (ticks st)) f v) st r.
Proof.
  intros r. remember r as r' eqn:Hr. subst r. 
  unfold process_version in Hr. unfold classify, is_sentinel, sentinel.
  destruct (String.eqb (Version v) "$LATEST").
  { subst r'. simpl. repeat split; lia. }
  unfold parse_last_modified in Hr.
  destruct (strptime w (LastModified v)) as [[fields offset] |].
  2: { rewrite bind_raise_run in Hr. subst r'. simpl.
       unfold same_lists. repeat split; lia. }
  rewrite bind_ret_run, bind_log_run, bind_lift_run in Hr.
  destruct (dt_gt (mk_datetime fields offset) c) as [e | [|]].
  - subst r'. unfold same_lists. simpl. repeat split; trace_simpl; try reflexivity; try lia.
  - rewrite bind_lift_run in Hr.
    destruct (dt_le (mk_datetime fields offset) a) as [e | [|]].
    + subst r'. unfold same_lists. simpl. repeat split; trace_simpl; try reflexivity; try lia.
    + rewrite bind_log_run in Hr. subst r'. simpl.
      repeat split; trace_simpl; try reflexivity; try lia.
    + subst r'. unfold same_lists. simpl. repeat split; trace_simpl; try reflexivity; try lia.
  - rewrite bind_run in Hr.
    match type of Hr with
    | context [get_invocation_count w f ?q c ?s] =>
        pose proof (get_invocation_count_run w f q c s) as Hc; cbv zeta in Hc;
        destruct (get_invocation_count w f q c s) as [rc st3]
    end.
    destruct Hc as (Hrc & (Hal & Hdl) & (Hfp & Hvp) & Htk & Hdr & _ & _).
    simpl in Hrc, Hal, Hdl, Hfp, Hvp, Htk, Hdr. subst rc.
    destruct (0 <? invocation_count_at w c (clock w (ticks st)) f (Version v)).
    + subst r'. simpl.
      unfold same_lists. repeat split; trace_simpl; try assumption; try lia.
      fold (delete_requests (trace st3)). rewrite Hdr. trace_simpl. reflexivity.
    + rewrite bind_log_run, bind_modify_run in Hr.
      match type of Hr with
      | context [delete_lambda_version w f ?q ?s] =>
          pose proof (delete_lambda_version_run w f q s) as Hd; cbv zeta in Hd;
          destruct (delete_lambda_version w f q s) as [rd st5]
      end.
      destruct Hd as (Hrd & (Hal5 & Hdl5) & Hfp5 & Htk5 & Hdr5 & _ & Hreg).
      simpl in Hrd, Hal5, Hdl5, Hfp5, Htk5, Hdr5. subst r'. simpl.
      repeat split; try congruence; try lia.
      * rewrite Hdr5. trace_simpl. fold (delete_requests (trace st3)).
        rewrite Hdr. trace_simpl. reflexivity.
      * destruct (delete_fault w f (Version v)).
        -- destruct Hreg as [Hreg _]. simpl in Hreg. congruence.
        -- intros g. rewrite Hreg. unfold listed_versions. simpl. rewrite Hvp.
           reflexivity.
Qed.

Lemma parsed_strptime (w : world) (v : version_cfg) (lm : datetime) :
  parsed w v = Some lm ->
  exists fields offset,
    strptime w (LastModified v) = Some (fields, offset) /\
    lm = mk_datetime fields offset.
Proof.
  unfold parsed. destruct (strptime w (LastModified v)) as [[fields offset] |];
    [| discriminate].
  intros H. injection H as <-. eauto.
Qed.

(** A loop goes on with the next element when its body returns. *)
Lemma for_each_continue {A} (body : A -> M unit) (x : A) (l : list A) (st : state) :
  fst (body x st) = inr tt ->
  for_each (x :: l) body st = for_each l body (snd (body x st)).
Proof.
  intros H. simpl. rewrite bind_run.
  destruct (body x st) as [[e | []] st']; simpl in *; [discriminate | reflexivity].
Qed.

(** C9. A metric lookup that raises is caught inside [get_invocation_count],
    logged as an error and answered with 0; a lookup that returns no
    datapoint is answered with 0 as well.  A version at or before the cutoff
    whose lookup raised therefore takes the deletion path: it is appended to
    [deleted_versions], its delete request is issued, the loop body returns
    and the loop goes on with the versions that follow. *)
Theorem metric_failure_counts_as_zero (w : world) (c a : datetime) (f : string)
    (v : version_cfg) (lm : datetime) (st : state) (e : exn) (rest : list version_cfg) :
  is_sentinel v = false ->
  parsed w v = Some lm ->
  dt_gt lm c = inr false ->
  metric_sums w f (f ++ ":" ++ Version v) c (mk_datetime (clock w (ticks st)) None) = inl e ->
  let r0 := get_invocation_count w f (Version v) c st in
  let r := process_version w c a f v st in
  (fst r0 = inr 0 /\
   error_logs (trace (snd r0))
     = (error_logs (trace st) ++ [MsgMetricError f (Version v) e])%list) /\
  (fst r = inr tt /\
   deleted_versions (snd r) = (deleted_versions st ++ [(f, Version v, lm)])%list /\
   delete_requests (trace (snd r)) = (delete_requests (trace st) ++ [(f, Version v)])%list /\
   for_each (v :: rest) (process_version w c a f) st
     = for_each rest (process_version w c a f) (snd r)) /\
  (forall f' q c' st',
     metric_sums w f' (f' ++ ":" ++ q) c' (mk_datetime (clock w (ticks st')) None) = inr [] ->
     fst (get_invocation_count w f' q c' st') = inr 0).
Proof.
  intros Hs Hp Hgt Hm r0 r. split; [| split].
  - destruct (get_invocation_count_run w f (Version v) c st)
      as (Hr & _ & _ & _ & _ & _ & He).
    fold r0 in Hr, He. rewrite Hm in He.
    unfold invocation_count_at in Hr. rewrite Hm in Hr. split; assumption.
  - destruct (process_version_classified w c a f v st) as (_ & _ & Heff).
    fold r in Heff.
    destruct (parsed_strptime w v lm Hp) as (fields & offset & Hparse & ->).
    unfold classify, invocation_count_at in Heff.
    rewrite Hs, Hparse, Hgt, Hm in Heff. simpl in Heff.
    destruct Heff as (Hr & _ & Hd & Hq & _).
    repeat split; try assumption.
    apply for_each_continue. exact Hr.
  - intros f' q c' st' Hempty.
    destruct (get_invocation_count_run w f' q c' st') as (Hr & _).
    unfold invocation_count_at in Hr. rewrite Hempty in Hr. exact Hr.
Qed.

Lemma metric_failure_counts_as_zero_witness :
  let r := process_version outage_world aware_cutoff aware_alert "fn"
             (mk_version "1" "2024-09-27T00:00:00.000+0000") scenario_state in
  fst (get_invocation_count outage_world "fn" "1" aware_cutoff scenario_state) = inr 0 /\
  fst r = inr tt /\
  deleted_versions (snd r) = [("fn", "1", mk_datetime (midnight 2024 9 27) (Some 0))] /\
  delete_requests (trace (snd r)) = [("fn", "1")].
Proof.
  destruct (metric_failure_counts_as_zero outage_world aware_cutoff aware_alert "fn"
              (mk_version "1" "2024-09-27T00:00:00.000+0000")
              (mk_datetime (midnight 2024 9 27) (Some 0)) scenario_state
              (ClientError "Throttling") [] eq_refl eq_refl eq_refl eq_refl)
    as ((H0 & _) & (Hr & Hd & Hq & _) & _).
  repeat split; assumption.
Defined.

(** ** The scenarios, run *)

(** C1 (divergence). Version 1 of the scenario was last modified 35 days
    ago, before the cutoff, and has no invocation in the window.  The
    handler as written does not delete it: the comparison of line 79 raises
    [TypeError], the run aborts, no delete request is issued and the version
    stays in the registry.  With the two dates made timezone-aware, lines
    57-97 delete exactly that version. *)
Theorem old_unused_version_not_deleted :
  let r := lambda_handler scenario_world scenario_state in
  let r' := cleanup scenario_world aware_cutoff aware_alert scenario_state in
  (fst r = inl TypeError /\
   deleted_versions (snd r) = [] /\
   delete_requests (trace (snd r)) = [] /\
   listed_versions (snd r) "fn" = listed_versions scenario_state "fn") /\
  (fst r' = inr tt /\
   deleted_versions (snd r') = [version_A] /\
   delete_requests (trace (snd r')) = [("fn", "1")] /\
   map Version (listed_versions (snd r') "fn") = ["$LATEST"; "2"; "3"; "4"]).
Proof. vm_compute. repeat split. Qed.

(** C3 (divergence). The only published version was last modified 25 days
    ago, inside the alert window (30 days retention, 7 days lead).  The
    handler as written does not alert on it: line 79 raises [TypeError], the
    run aborts with an empty [alert_versions] and the notification routine is
    never called.  With the two dates made timezone-aware, lines 57-97 put
    exactly that version on the alert list. *)
Theorem alert_window_version_not_alerted :
  let r := lambda_handler scenario_world alert_window_state in
  let r' := cleanup scenario_world aware_cutoff aware_alert alert_window_state in
  (fst r = inl TypeError /\
   alert_versions (snd r) = [] /\
   alert_calls (trace (snd r)) = []) /\
  (fst r' = inr tt /\
   alert_versions (snd r') = [version_C] /\
   alert_calls (trace (snd r')) = [([version_C], [])]).
Proof. vm_compute. repeat split. Qed.




(** C8 (divergence). With [EMAIL_RECIPIENTS] unset, line 39 makes the
    recipients the one-element list holding the empty string, which is
    truthy: the guard of line 141 does not fire, no error is logged and the
    send is attempted, to the empty address.  With [EMAIL_SENDER] unset the
    guard does fire: an error is logged and nothing is sent. *)
Theorem missing_recipients_not_detected :
  let r := send_cleanup_alert no_recipients_world [] [version_A] scenario_state in
  let r' := send_cleanup_alert no_sender_world [] [version_A] scenario_state in
  (EMAIL_RECIPIENTS no_recipients_world = [""] /\
   fst r = inr tt /\
   error_logs (trace (snd r)) = [] /\
   send_attempts (trace (snd r))
   = [("notify@example.com", [""], message_body no_recipients_world [] [version_A])]) /\
  (fst r' = inr tt /\
   error_logs (trace (snd r')) = [MsgMissingEmailConfig] /\
   send_attempts (trace (snd r')) = []).
Proof. vm_compute. repeat split. Qed.

(** ** Running twice *)

Lemma for_each_app {A} (body : A -> M unit) (l1 l2 : list A) (st : state) :
  for_each (l1 ++ l2) body st = (for_each l1 body ;; for_each l2 body) st.
Proof.
  revert st. induction l1 as [| x l1 IH]; intros st; simpl; [reflexivity |].
  repeat rewrite bind_run.
  destruct (body x st) as [[e | []] st']; [reflexivity |].
  rewrite IH. reflexivity.
Qed.

(** A loop over pages and, inside, over the elements of a page is a loop
    over the elements of all pages. *)
Lemma for_each_concat {A} (body : A -> M unit) (pages : list (list A)) (st : state) :
  for_each pages (fun page => for_each page body) st = for_each (List.concat pages) body st.
Proof.
  revert st. induction pages as [| p pages IH]; intros st; simpl; [reflexivity |].
  rewrite for_each_app. repeat rewrite bind_run.
  destruct (for_each p body st) as [[e | []] st']; [reflexivity | apply IH].
Qed.

Lemma without_nil (l : list version_cfg) : without [] l = l.
Proof.
  unfold without. apply forallb_filter_id. apply forallb_forall. reflexivity.
Qed.

Lemma without_step (D : list string) (x : version_cfg) (l : list version_cfg) :
  without D (x :: l)
  = if existsb (String.eqb (Version x)) D then without D l else x :: without D l.
Proof.
  unfold without. simpl. destruct (existsb (String.eqb (Version x)) D); reflexivity.
Qed.

Lemma without_cons (q : string) (D : list string) (l : list version_cfg) :
  without (q :: D) l
  = without D (filter (fun x => negb (String.eqb (Version x) q)) l).
Proof.
  induction l as [| x l IH]; [reflexivity |].
  rewrite without_step. cbn [filter existsb].
  destruct (String.eqb (Version x) q); cbn [orb negb].
  - exact IH.
  - rewrite without_step.
    destruct (existsb (String.eqb (Version x)) D); [exact IH | now rewrite IH].
Qed.

Lemma filter_absent (q : string) (l : list version_cfg) :
  ~ In q (map Version l) ->
  filter (fun x => negb (String.eqb (Version x) q)) l = l.
Proof.
  induction l as [| x l IH]; simpl; intros Hq; [reflexivity |].
  destruct (String.eqb (Version x) q) eqn:Hx.
  - apply String.eqb_eq in Hx. exfalso. apply Hq. now left.
  - simpl. rewrite IH; [reflexivity |]. intros Hin. apply Hq. now right.
Qed.

Lemma without_absent (D : list string) (x : version_cfg) :
  ~ In (Version x) D -> existsb (String.eqb (Version x)) D = false.
Proof.
  intros Hx. apply Bool.not_true_iff_false. intros He.
  apply existsb_exists in He. destruct He as (d & Hd & He).
  apply String.eqb_eq in He. subst d. contradiction.
Qed.

Lemma NoDup_map_filter {A B} (g : A -> B) (p : A -> bool) (l : list A) :
  NoDup (map g l) -> NoDup (map g (filter p l)).
Proof.
  induction l as [| x l IH]; simpl; intros Hnd; [constructor |].
  inversion Hnd as [| y ys Hx Hnd']; subst.
  destruct (p x); simpl; [| now apply IH].
  constructor; [| now apply IH].
  intros Hin. apply Hx. apply in_map_iff in Hin. destruct Hin as (z & Hz & Hin).
  apply filter_In in Hin. apply in_map_iff. exists z. tauto.
Qed.

Section Scan.

Variable w : world.
Variables cutoff_date alert_date : datetime.
Variable t : Z.
Variable f : string.

Let scan_f := scan w cutoff_date alert_date t f.

(** What a pass deletes, it met. *)
Lemma scan_names (l : list version_cfg) : incl (fst (scan_f l)) (map Version l).
Proof.
  unfold scan_f. induction l as [| v l IH]; simpl; [apply incl_refl |].
  destruct (classify w cutoff_date alert_date t f v);
    try (apply incl_tl; exact IH).
  - intros x [].
  - destruct (scan w cutoff_date alert_date t f l) as [D o]; simpl in *.
    intros x [<- | Hx]; [now left | right; now apply IH].
Qed.

(** A second pass over what the first one left deletes nothing and ends
    the way the first one did. *)
Lemma scan_without (l : list version_cfg) :
  NoDup (map Version l) ->
  scan_f (without (fst (scan_f l)) l) = ([], snd (scan_f l)).
Proof.
  unfold scan_f. induction l as [| v l IH]; intros Hnd; [reflexivity |].
  cbn [map] in Hnd. cbn [scan].
  inversion Hnd as [| y ys Hv Hnd']; subst.
  pose proof (scan_names l) as Hnames. unfold scan_f in Hnames.
  specialize (IH Hnd').
  assert (Hkeep : forall D, incl D (map Version l) ->
            without D (v :: l) = v :: without D l).
  { intros D HD. rewrite without_step.
    rewrite without_absent; [reflexivity |]. intros Hin. apply Hv, HD, Hin. }
  destruct (classify w cutoff_date alert_date t f v) eqn:Hc; cbn [fst snd];
    try (rewrite (Hkeep _ Hnames); cbn [scan]; rewrite Hc; exact IH).
  - rewrite without_nil. cbn [scan]. rewrite Hc. reflexivity.
  - destruct (scan w cutoff_date alert_date t f l) as [D o]; cbn [fst snd] in *.
    rewrite without_cons. cbn [filter]. rewrite String.eqb_refl. cbn [negb].
    rewrite (filter_absent _ _ Hv). exact IH.
Qed.

End Scan.

Lemma settled_ext (w : world) (c a : datetime) (t : Z)
    (reg reg' : string -> list version_cfg) (F : list string) :
  (forall f, reg f = reg' f) -> settled w c a t reg F -> settled w c a t reg' F.
Proof.
  intros Hr. induction F as [| f F IH]; simpl; [trivial |].
  rewrite <- Hr. intros [H1 H2]. split; [exact H1 |]. intros Ho. apply IH, H2, Ho.
Qed.

Lemma listed_same (st st' : state) :
  version_pages st' = version_pages st ->
  forall g, listed_versions st' g = listed_versions st g.
Proof. intros H g. unfold listed_versions. now rewrite H. Qed.

Section Twice.

Variable w : world.
Hypothesis deletes_succeed : forall f q, delete_fault w f q = None.
Hypothesis clock_stands : forall n, clock w n = clock w 0%nat.
Variables cutoff_date alert_date : datetime.

Let t := clock w 0%nat.
Let body := process_version w cutoff_date alert_date.
Let pass := process_function w cutoff_date alert_date.
Let scan_at := scan w cutoff_date alert_date t.

(** The outcome a pass announces. *)
Let announced (o : option exn) : exn + unit :=
  match o with Some e => inl e | None => inr tt end.

(** What one pass over the versions [l], listed under [f], leaves behind. *)
Let pass_effect (f : string) (l : list version_cfg) (st : state)
    (R : (exn + unit) * state) : Prop :=
  fst R = announced (snd (scan_at f l)) /\
  function_pages (snd R) = function_pages st /\
  (forall g, listed_versions (snd R) g
             = if String.eqb g f then without (fst (scan_at f l)) (listed_versions st g)
               else listed_versions st g) /\
  (fst (scan_at f l) = [] -> deleted_versions (snd R) = deleted_versions st).

Lemma pass_effect_skip f v l st st1 :
  function_pages st1 = function_pages st ->
  version_pages st1 = version_pages st ->
  deleted_versions st1 = deleted_versions st ->
  scan_at f (v :: l) = scan_at f l ->
  pass_effect f l st1 (for_each l (body f) st1) ->
  pass_effect f (v :: l) st (for_each l (body f) st1).
Proof.
  intros Hfp Hvp Hd Hscan (H1 & H2 & H3 & H4). unfold pass_effect. rewrite Hscan.
  repeat split.
  - exact H1.
  - congruence.
  - intros g. rewrite H3. rewrite (listed_same _ _ Hvp). reflexivity.
  - intros HD. rewrite (H4 HD). exact Hd.
Qed.

Lemma pass_versions f l : forall st, pass_effect f l st (for_each l (body f) st).
Proof.
  induction l as [| v l IH]; intros st.
  - unfold pass_effect. simpl. repeat split.
    intros g. rewrite without_nil. now destruct (String.eqb g f).
  - cbn [for_each]. rewrite bind_run.
    destruct (process_version_classified w cutoff_date alert_date f v st)
      as (Hfp & _ & Heff).
    rewrite clock_stands in Heff. fold t in Heff.
    unfold body at 1.
    assert (Hscan : forall d, classify w cutoff_date alert_date t f v = d ->
              scan_at f (v :: l)
              = match d with
                | VAbort e => ([], Some e)
                | VDelete _ => (Version v :: fst (scan_at f l), snd (scan_at f l))
                | _ => scan_at f l
                end).
    { intros d Hd. unfold scan_at. cbn [scan]. rewrite Hd.
      destruct d; try reflexivity.
      destruct (scan w cutoff_date alert_date t f l); reflexivity. }
    specialize (Hscan _ eq_refl).
    destruct (classify w cutoff_date alert_date t f v) as [| e | lm | lm | lm n | lm];
      unfold version_effect in Heff;
      destruct (process_version w cutoff_date alert_date f v st) as [rv st1];
      cbn [fst snd] in Heff, Hfp.
    + injection Heff as -> ->. apply pass_effect_skip; auto.
    + destruct Heff as (-> & (_ & Hd) & Hvp & _).
      unfold pass_effect. rewrite Hscan. cbn [fst snd announced]. repeat split; auto.
      intros g. rewrite without_nil. rewrite (listed_same _ _ Hvp).
      now destruct (String.eqb g f).
    + destruct Heff as (-> & _ & Hd & Hvp & _). apply pass_effect_skip; auto.
    + destruct Heff as (-> & (_ & Hd) & Hvp & _). apply pass_effect_skip; auto.
    + destruct Heff as (-> & (_ & Hd) & Hvp & _). apply pass_effect_skip; auto.
    + destruct Heff as (-> & _ & _ & _ & Hreg).
      rewrite deletes_succeed in Hreg.
      destruct (IH st1) as (H1 & H2 & H3 & H4).
      unfold pass_effect. rewrite Hscan. cbn [fst snd]. repeat split.
      * exact H1.
      * congruence.
      * intros g. rewrite H3, Hreg.
        destruct (String.eqb g f); [| reflexivity].
        rewrite without_cons. reflexivity.
      * discriminate.
Qed.

Lemma pass_function f st :
  pass_effect f (listed_versions st f) st (pass f st).
Proof.
  unfold pass. rewrite process_function_eq, for_each_concat.
  fold (listed_versions st f).
  destruct (pass_versions f (listed_versions st f)
              (emit (Log INFO (MsgProcessing f)) st)) as (H1 & H2 & H3 & H4).
  unfold body in *. repeat split; assumption.
Qed.

Lemma pass_unique f st :
  unique_versions st -> unique_versions (snd (pass f st)).
Proof.
  intros Hu g. destruct (pass_function f st) as (_ & _ & H3 & _). rewrite H3.
  destruct (String.eqb g f); [| apply Hu].
  apply NoDup_map_filter, Hu.
Qed.

(** A function whose versions a pass would leave alone keeps them through
    any number of passes. *)
Lemma passes_keep f F : forall st,
  fst (scan_at f (listed_versions st f)) = [] ->
  listed_versions (snd (for_each F pass st)) f = listed_versions st f.
Proof.
  induction F as [| g F IH]; intros st Hf; [reflexivity |].
  cbn [for_each]. rewrite bind_run.
  destruct (pass_function g st) as (_ & _ & H3 & _).
  assert (Hsame : listed_versions (snd (pass g st)) f = listed_versions st f).
  { rewrite H3. destruct (String.eqb f g) eqn:Hfg; [| reflexivity].
    apply String.eqb_eq in Hfg. subst g. rewrite Hf. apply without_nil. }
  destruct (pass g st) as [[e | []] st1]; cbn [fst snd] in *.
  - exact Hsame.
  - rewrite IH; [exact Hsame |]. rewrite Hsame. exact Hf.
Qed.

(** After the passes of one run the registry is settled. *)
Lemma passes_settle F : forall st,
  unique_versions st ->
  settled w cutoff_date alert_date t (listed_versions (snd (for_each F pass st))) F /\
  function_pages (snd (for_each F pass st)) = function_pages st.
Proof.
  induction F as [| g F IH]; intros st Hu; [split; [exact I | reflexivity] |].
  cbn [for_each]. rewrite bind_run.
  pose proof (pass_unique g st Hu) as Hu1.
  destruct (pass_function g st) as (H1 & H2 & H3 & _).
  assert (Hg : scan_at g (listed_versions (snd (pass g st)) g)
               = ([], snd (scan_at g (listed_versions st g)))).
  { rewrite H3, String.eqb_refl. apply scan_without, Hu. }
  destruct (pass g st) as [[e | []] st1]; cbn [fst snd] in *.
  - split; [| exact H2]. cbn [settled]. fold t. fold scan_at. rewrite Hg. cbn [fst snd].
    split; [reflexivity |].
    destruct (snd (scan_at g (listed_versions st g))); [discriminate | discriminate].
  - destruct (IH st1 Hu1) as [Hs Hfp]. split; [| congruence].
    cbn [settled]. fold t. fold scan_at.
    rewrite passes_keep by (rewrite Hg; reflexivity).
    rewrite Hg. cbn [fst snd]. split; [reflexivity |]. intros _. exact Hs.
Qed.

(** On a settled registry the passes delete nothing. *)
Lemma passes_settled F : forall st,
  settled w cutoff_date alert_date t (listed_versions st) F ->
  deleted_versions (snd (for_each F pass st)) = deleted_versions st.
Proof.
  induction F as [| g F IH]; intros st Hs; [reflexivity |].
  cbn [for_each]. rewrite bind_run.
  cbn [settled] in Hs. fold t in Hs. fold scan_at in Hs. destruct Hs as [HD Hnext].
  destruct (pass_function g st) as (H1 & _ & H3 & H4).
  specialize (H4 HD). rewrite HD in H3.
  destruct (pass g st) as [[e | []] st1]; cbn [fst snd] in *; [exact H4 |].
  rewrite IH; [exact H4 |].
  destruct (snd (scan_at g (listed_versions st g))); [discriminate |].
  apply (settled_ext _ _ _ _ (listed_versions st)); [| apply Hnext; reflexivity].
  intros x. rewrite H3, without_nil. now destruct (String.eqb x g).
Qed.

End Twice.

Section TwiceCleanup.

Variable w : world.
Hypothesis deletes_succeed : forall f q, delete_fault w f q = None.
Hypothesis clock_stands : forall n, clock w n = clock w 0%nat.
Variables cutoff_date alert_date : datetime.

Let t := clock w 0%nat.

Lemma process_all_flat st :
  process_all w cutoff_date alert_date st
  = for_each (listed_functions st) (process_function w cutoff_date alert_date) st.
Proof. rewrite process_all_eq. apply for_each_concat. Qed.

Lemma settled_state_ext st st' :
  function_pages st' = function_pages st -> version_pages st' = version_pages st ->
  settled_state w cutoff_date alert_date st ->
  settled_state w cutoff_date alert_date st'.
Proof.
  intros Hf Hv. unfold settled_state, listed_functions. rewrite Hf.
  apply settled_ext. intros f. symmetry. now apply listed_same.
Qed.

Lemma cleanup_settles st :
  unique_versions st ->
  settled_state w cutoff_date alert_date (snd (cleanup w cutoff_date alert_date st)).
Proof.
  intros Hu. rewrite cleanup_eq, bind_run, process_all_flat.
  set (st0 := set_deleted [] (set_alert [] st)).
  destruct (passes_settle w deletes_succeed clock_stands cutoff_date alert_date
              (listed_functions st0) st0 Hu) as [Hs Hfp].
  assert (Hs1 : settled_state w cutoff_date alert_date
            (snd (for_each (listed_functions st0)
                    (process_function w cutoff_date alert_date) st0))).
  { unfold settled_state, listed_functions in *. rewrite Hfp. exact Hs. }
  clear Hs Hfp.
  destruct (for_each (listed_functions st0) _ st0) as [[e | []] st1];
    cbn [fst snd] in *; [exact Hs1 |].
  rewrite bind_run, notify_eq.
  destruct (truthy_list (alert_versions st1) || truthy_list (deleted_versions st1)).
  - destruct (send_cleanup_alert_run w (alert_versions st1) (deleted_versions st1) st1)
      as (Hr & _ & _ & Hfp & Hvp & _).
    destruct (send_cleanup_alert w _ _ st1) as [[e | []] st2];
      cbn [fst snd] in *; [discriminate |].
    apply (settled_state_ext st1); assumption.
  - exact Hs1.
Qed.

Lemma cleanup_settled st :
  settled_state w cutoff_date alert_date st ->
  deleted_versions (snd (cleanup w cutoff_date alert_date st)) = [].
Proof.
  intros Hs. rewrite cleanup_eq, bind_run, process_all_flat.
  set (st0 := set_deleted [] (set_alert [] st)).
  pose proof (passes_settled w deletes_succeed clock_stands cutoff_date alert_date
                (listed_functions st0) st0 Hs) as Hd.
  destruct (for_each (listed_functions st0) _ st0) as [[e | []] st1];
    cbn [fst snd] in *; [exact Hd |].
  rewrite bind_run, notify_eq.
  destruct (truthy_list (alert_versions st1) || truthy_list (deleted_versions st1)).
  - destruct (send_cleanup_alert_run w (alert_versions st1) (deleted_versions st1) st1)
      as (Hr & _ & Hdl & _).
    destruct (send_cleanup_alert w _ _ st1) as [[e | []] st2];
      cbn [fst snd] in *; [discriminate |].
    cbn. rewrite Hdl, Hd. reflexivity.
  - exact Hd.
Qed.

End TwiceCleanup.

(** C10. Run twice on a clock that stands still, with every delete request
    of the first run taking effect, the second run deletes nothing: its
    [deleted_versions] is empty.  The metrics store and the timestamp parser
    answer both runs alike, and version identifiers are unique within a
    function.  Stated for lines 57-97 under any two dates, and for the
    handler as written. *)
Theorem second_run_deletes_nothing (w : world) (cutoff_date alert_date : datetime)
    (st : state) :
  (forall f q, delete_fault w f q = None) ->
  (forall n, clock w n = clock w 0%nat) ->
  unique_versions st ->
  deleted_versions
    (snd (cleanup w cutoff_date alert_date
            (snd (cleanup w cutoff_date alert_date st)))) = [] /\
  deleted_versions (snd (lambda_handler w (snd (lambda_handler w st)))) = [].
Proof.
  intros Hd Hc Hu. split.
  - apply cleanup_settled; auto. apply cleanup_settles; auto.
  - set (c0 := dt_sub (mk_datetime (clock w 0%nat) None) (timedelta_days (RETENTION_DAYS w))).
    set (a0 := dt_sub (mk_datetime (clock w 0%nat) None)
                 (timedelta_days (RETENTION_DAYS w - ALERT_DAYS w))).
    assert (Hcut : forall s, handler_cutoff w s = c0)
      by (intros s; unfold handler_cutoff; rewrite (Hc (ticks s)); reflexivity).
    assert (Hal : forall s, handler_alert w s = a0)
      by (intros s; unfold handler_alert; rewrite (Hc (S (ticks s))); reflexivity).
    assert (Hs1 : settled_state w c0 a0 (snd (lambda_handler w st))).
    { rewrite lambda_handler_eq, Hcut, Hal.
      pose proof (cleanup_settles w Hd Hc c0 a0 (handler_entry w st) Hu) as Hs.
      destruct (cleanup w c0 a0 (handler_entry w st)) as [[e | []] st1];
        cbn [fst snd] in *; [| exact Hs].
      apply (settled_state_ext w c0 a0 st1); [reflexivity | reflexivity | exact Hs]. }
    rewrite lambda_handler_eq, Hcut, Hal.
    assert (Hs2 : settled_state w c0 a0 (handler_entry w (snd (lambda_handler w st))))
      by (apply (settled_state_ext w c0 a0 (snd (lambda_handler w st)));
          [reflexivity | reflexivity | exact Hs1]).
    pose proof (cleanup_settled w Hd Hc c0 a0 _ Hs2) as Hdel.
    destruct (cleanup w c0 a0 (handler_entry w (snd (lambda_handler w st))))
      as [[e | []] st2]; exact Hdel.
Qed.

Lemma second_run_deletes_nothing_witness :
  deleted_versions
    (snd (cleanup scenario_world aware_cutoff aware_alert scenario_state)) = [version_A] /\
  deleted_versions
    (snd (cleanup scenario_world aware_cutoff aware_alert
            (snd (cleanup scenario_world aware_cutoff aware_alert scenario_state)))) = [].
Proof.
  split; [reflexivity |].
  exact (proj1 (second_run_deletes_nothing scenario_world aware_cutoff aware_alert
                  scenario_state (fun _ _ => eq_refl) (fun _ => eq_refl)
                  scenario_unique)).
Defined.

(** ** Further properties of the code *)

(** X1. For any two dates, lines 73-92 do with a version exactly what the
    policy [classify] decides for it: the sentinel is passed over; a text
    that does not parse or dates that do not compare raise and change
    neither list nor registry; a version in the alert window is appended to
    [alert_versions]; a newer one and one invoked in the window are left
    alone; a version at or before the cutoff with no invocation is appended
    to [deleted_versions], its delete request is issued, and it leaves the
    registry unless the registry faults. *)
Theorem loop_body_follows_policy (w : world) (cutoff_date alert_date : datetime)
    (f : string) (v : version_cfg) (st : state) :
  version_effect w f v
    (classify w cutoff_date alert_date (clock w (ticks st)) f v) st
    (process_version w cutoff_date alert_date f v st).
Proof.
  destruct (process_version_classified w cutoff_date alert_date f v st) as (_ & _ & H).
  exact H.
Qed.

(** X2. [send_cleanup_alert] never raises: a failure of the send is caught
    and logged as an error, and the lists and the registry are as before. *)
Theorem notification_failure_is_recovered (w : world) (a d : list entry) (st : state)
    (sender : string) (e : exn) :
  EMAIL_SENDER w = Some sender -> truthy_str sender = true ->
  send_fault w sender (EMAIL_RECIPIENTS w) (message_body w a d) = Some e ->
  let r := send_cleanup_alert w a d st in
  fst r = inr tt /\
  error_logs (trace (snd r)) = (error_logs (trace st) ++ [MsgEmailFailed e])%list /\
  alert_versions (snd r) = alert_versions st /\
  deleted_versions (snd r) = deleted_versions st /\
  version_pages (snd r) = version_pages st.
Proof.
  intros Hs Ht Hf r. subst r.
  unfold send_cleanup_alert. rewrite recipients_truthy, Hs. simpl. rewrite Ht. simpl.
  unfold ses_send_email, try_except, bind, modify, log, raise, ret. simpl.
  rewrite Hf. simpl. repeat split. trace_simpl. reflexivity.
Qed.

Lemma notification_failure_is_recovered_witness :
  fst (send_cleanup_alert rejecting_world [] [version_A] scenario_state) = inr tt.
Proof.
  exact (proj1 (notification_failure_is_recovered rejecting_world [] [version_A]
                  scenario_state "notify@example.com" (ClientError "MessageRejected")
                  eq_refl eq_refl eq_refl)).
Defined.

(** X3. [delete_lambda_version] never raises.  When the registry faults,
    the failure is logged as an error and the registry is unchanged; when it
    does not, the version is gone from the listing of its function. *)
Theorem deletion_failure_is_recovered (w : world) (f q : string) (st : state) :
  let r := delete_lambda_version w f q st in
  fst r = inr tt /\
  match delete_fault w f q with
  | Some e =>
      version_pages (snd r) = version_pages st /\
      error_logs (trace (snd r)) = (error_logs (trace st) ++ [MsgDeleteFailed q f e])%list
  | None =>
      Forall (fun v => Version v <> q) (listed_versions (snd r) f)
  end.
Proof.
  intros r.
  destruct (delete_lambda_version_run w f q st) as (Hr & _ & _ & _ & _ & _ & Hreg).
  fold r in Hr, Hreg. split; [exact Hr |].
  destruct (delete_fault w f q); [exact Hreg |].
  rewrite Hreg, String.eqb_refl. apply Forall_forall. intros v Hv.
  apply filter_In in Hv. destruct Hv as [_ Hv].
  apply Bool.negb_true_iff, String.eqb_neq in Hv. exact Hv.
Qed.

(** X4. With the two dates of lines 54-55 within the range of [datetime],
    the handler as written returns normally when the registry lists no
    version other than the sentinel, and raises when the first other version
    has a [LastModified] that does not parse ([ValueError]) or that carries
    an offset ([TypeError]). *)
Theorem handler_outcome_by_first_version (w : world) (fns : list (list string))
    (vers : string -> list (list version_cfg)) :
  dates_in_range w (initial_state fns vers) ->
  let r := lambda_handler w (initial_state fns vers) in
  match first_version (initial_state fns vers) with
  | None => fst r = inr tt
  | Some (_, v) =>
      match naive_failure w v with
      | Some e => fst r = inl e
      | None => True
      end
  end.
Proof.
  intros _ r.
  pose proof (naive_run_outcome_first w fns vers) as Hout.
  destruct (first_version (initial_state fns vers)) as [[f v] |].
  - destruct (naive_failure w v) as [e |]; [| exact I].
    destruct (lambda_handler_naive w fns vers _ Hout) as (Hr & _). exact Hr.
  - destruct (lambda_handler_naive w fns vers _ Hout) as (Hr & _). exact Hr.
Qed.

Lemma handler_outcome_by_first_version_witness :
  fst (lambda_handler scenario_world alert_window_state) = inl TypeError /\
  fst (lambda_handler scenario_world (initial_state [["fn"]] (fun _ => []))) = inr tt.
Proof.
  split.
  - refine (handler_outcome_by_first_version scenario_world [["fn"]]
              (version_pages alert_window_state) _).
    repeat split; vm_compute; congruence.
  - refine (handler_outcome_by_first_version scenario_world [["fn"]] (fun _ => []) _).
    repeat split; vm_compute; congruence.
Defined.

(** ** Invariants of a whole run *)

Section RunInvariant.

Variable w : world.
Variables c a : datetime.
Variable P : state -> Prop.
Hypothesis P_log : forall lvl msg st, P st -> P (emit (Log lvl msg) st).
Hypothesis P_alert : forall al dl, preserves P (send_cleanup_alert w al dl).
Hypothesis P_version : forall f v, preserves P (process_version w c a f v).

Lemma preserves_loops :
  preserves P (process_all w c a ;; notify w ;; log INFO MsgCompleted).
Proof.
  unfold process_all, process_function, notify, log.
  repeat first
    [ apply P_version
    | apply P_alert
    | apply preserves_modify; intros ? ?; now apply P_log
    | preserve_step ].
Qed.

Lemma preserves_process_all : preserves P (process_all w c a).
Proof.
  unfold process_all, process_function, log.
  repeat first
    [ apply P_version
    | apply preserves_modify; intros ? ?; now apply P_log
    | preserve_step ].
Qed.

Lemma preserves_notify : preserves P (notify w).
Proof. unfold notify. repeat first [ apply P_alert | preserve_step ]. Qed.

Lemma invariant_cleanup st :
  P (set_deleted [] (set_alert [] st)) -> P (snd (cleanup w c a st)).
Proof. intros H. rewrite cleanup_eq. now apply preserves_loops. Qed.

End RunInvariant.

(** The same for the handler, with the two dates it computes. *)
Lemma invariant_handler (w : world) (P : state -> Prop) (st : state) :
  (forall lvl msg s, P s -> P (emit (Log lvl msg) s)) ->
  (forall n s, P s -> P (set_ticks n s)) ->
  (forall al dl, preserves P (send_cleanup_alert w al dl)) ->
  (forall f v, preserves P
     (process_version w (handler_cutoff w st) (handler_alert w st) f v)) ->
  P (set_deleted [] (set_alert [] st)) -> P (snd (lambda_handler w st)).
Proof.
  intros P_log P_ticks P_alert P_version H. rewrite lambda_handler_eq.
  assert (H1 : P (snd (cleanup w (handler_cutoff w st) (handler_alert w st)
                         (handler_entry w st)))).
  { apply invariant_cleanup; try assumption.
    change (P (set_ticks (S (S (ticks st)))
                 (emit (Log INFO (MsgSettings (RETENTION_DAYS w) (ALERT_DAYS w)))
                    (emit (Log INFO MsgStarting) (set_deleted [] (set_alert [] st)))))).
    apply P_ticks, P_log, P_log, H. }
  destruct (cleanup w _ _ (handler_entry w st)) as [[e | []] st1]; simpl in *.
  - now apply P_log.
  - exact H1.
Qed.

(** What [classify] decides, read from the two list entries. *)
Lemma alert_entry_classify (w : world) (c a : datetime) (t : Z) (f : string)
    (v : version_cfg) :
  alert_entry w c a f v
  = match classify w c a t f v with
    | VAlert lm => [(f, Version v, lm)]
    | _ => []
    end.
Proof.
  unfold alert_entry, classify, parsed. destruct (is_sentinel v); [reflexivity |].
  destruct (strptime w (LastModified v)) as [[fields offset] |]; [| reflexivity].
  cbv zeta. destruct (dt_gt (mk_datetime fields offset) c) as [e | [|]]; try reflexivity.
  - destruct (dt_le (mk_datetime fields offset) a) as [e | [|]]; reflexivity.
  - destruct (0 <? invocation_count_at w c t f (Version v)); reflexivity.
Qed.

Lemma delete_entry_classify (w : world) (c a : datetime) (t : Z) (f : string)
    (v : version_cfg) :
  delete_entry w c t f v
  = match classify w c a t f v with
    | VDelete lm => [(f, Version v, lm)]
    | _ => []
    end.
Proof.
  unfold delete_entry, classify, parsed. destruct (is_sentinel v); [reflexivity |].
  destruct (strptime w (LastModified v)) as [[fields offset] |]; [| reflexivity].
  cbv zeta. destruct (dt_gt (mk_datetime fields offset) c) as [e | [|]]; try reflexivity.
  - destruct (dt_le (mk_datetime fields offset) a) as [e | [|]]; reflexivity.
  - destruct (0 <? invocation_count_at w c t f (Version v)); reflexivity.
Qed.

Lemma alert_entry_window (w : world) (c a : datetime) (f : string) (v : version_cfg)
    (e : entry) :
  In e (alert_entry w c a f v) ->
  dt_gt (entry_modified e) c = inr true /\ dt_le (entry_modified e) a = inr true.
Proof.
  unfold alert_entry. intros H.
  destruct (is_sentinel v); [contradiction |].
  destruct (parsed w v) as [lm |]; [| contradiction].
  destruct (dt_gt lm c) as [x | [|]] eqn:Hgt; try contradiction.
  destruct (dt_le lm a) as [x | [|]] eqn:Hle; try contradiction.
  destruct H as [<- | []]. split; assumption.
Qed.

Section RunFacts.

Variable w : world.

Lemma requests_match_version c a f v :
  preserves requests_match (process_version w c a f v).
Proof.
  intros st H. unfold requests_match in *.
  destruct (process_version_classified w c a f v st) as (_ & _ & Heff).
  unfold version_effect, same_lists in Heff.
  destruct (classify w c a (clock w (ticks st)) f v).
  - rewrite Heff. exact H.
  - destruct Heff as (_ & (_ & Hd) & _ & Hc).
    rewrite Hd, <- delete_requests_calls, Hc, delete_requests_calls. exact H.
  - destruct Heff as (_ & _ & Hd & _ & Hc).
    rewrite Hd, <- delete_requests_calls, Hc, delete_requests_calls. exact H.
  - destruct Heff as (_ & (_ & Hd) & _ & Hc).
    rewrite Hd, <- delete_requests_calls, Hc, delete_requests_calls. exact H.
  - destruct Heff as (_ & (_ & Hd) & _ & Hr). rewrite Hd, Hr. exact H.
  - destruct Heff as (_ & _ & Hd & Hr & _). rewrite Hd, Hr, H, map_app. reflexivity.
Qed.

Lemma requests_match_alert a d : preserves requests_match (send_cleanup_alert w a d).
Proof.
  intros st H. unfold requests_match in *.
  destruct (send_cleanup_alert_run w a d st) as (_ & _ & Hd & _ & _ & Hr & _).
  rewrite Hd, Hr. exact H.
Qed.

Lemma requests_match_log lvl msg st :
  requests_match st -> requests_match (emit (Log lvl msg) st).
Proof. unfold requests_match. trace_simpl. trivial. Qed.

Variable st0 : state.

Lemma registry_frame_trace st st' :
  function_pages st' = function_pages st ->
  version_pages st' = version_pages st ->
  incl (delete_requests (trace st)) (delete_requests (trace st')) ->
  registry_frame st0 st -> registry_frame st0 st'.
Proof.
  intros Hfp Hvp Hr (H1 & H2 & H3). repeat split.
  - congruence.
  - intros g. rewrite (listed_same _ _ Hvp). apply H2.
  - intros g x Hx. rewrite (listed_same _ _ Hvp).
    destruct (H3 g x Hx) as [Hin | Hin]; [now left | right; now apply Hr].
Qed.

Lemma incl_of_eq {A} (l l' : list A) : l = l' -> incl l l'.
Proof. intros ->. apply incl_refl. Qed.

Lemma registry_frame_version c a f v :
  preserves (registry_frame st0) (process_version w c a f v).
Proof.
  intros st H.
  destruct (process_version_classified w c a f v st) as (Hfp & _ & Heff).
  unfold version_effect, same_lists in Heff.
  destruct (classify w c a (clock w (ticks st)) f v).
  - rewrite Heff. exact H.
  - destruct Heff as (_ & _ & Hvp & Hc).
    apply (registry_frame_trace st); auto. apply incl_of_eq.
    rewrite <- delete_requests_calls, <- Hc, delete_requests_calls. reflexivity.
  - destruct Heff as (_ & _ & _ & Hvp & Hc).
    apply (registry_frame_trace st); auto. apply incl_of_eq.
    rewrite <- delete_requests_calls, <- Hc, delete_requests_calls. reflexivity.
  - destruct Heff as (_ & _ & Hvp & Hc).
    apply (registry_frame_trace st); auto. apply incl_of_eq.
    rewrite <- delete_requests_calls, <- Hc, delete_requests_calls. reflexivity.
  - destruct Heff as (_ & _ & Hvp & Hr).
    apply (registry_frame_trace st); auto. apply incl_of_eq. now rewrite Hr.
  - destruct Heff as (_ & _ & _ & Hr & Hreg).
    destruct (delete_fault w f (Version v)).
    + apply (registry_frame_trace st); auto. rewrite Hr. now apply incl_appl, incl_refl.
    + destruct H as (H1 & H2 & H3). repeat split.
      * congruence.
      * intros g x Hx. rewrite Hreg in Hx. apply H2.
        destruct (String.eqb g f); [apply filter_In in Hx; tauto | exact Hx].
      * intros g x Hx. rewrite Hreg, Hr.
        destruct (H3 g x Hx) as [Hin | Hin];
          [| right; apply in_or_app; now left].
        destruct (String.eqb g f) eqn:Hg; [| now left].
        apply String.eqb_eq in Hg. subst g.
        destruct (String.eqb (Version x) (Version v)) eqn:Hq.
        -- apply String.eqb_eq in Hq. rewrite Hq.
           right. apply in_or_app. right. now left.
        -- left. apply filter_In. split; [exact Hin |]. now rewrite Hq.
Qed.

Lemma registry_frame_alert a d :
  preserves (registry_frame st0) (send_cleanup_alert w a d).
Proof.
  intros st H.
  destruct (send_cleanup_alert_run w a d st) as (_ & _ & _ & Hfp & Hvp & Hr & _).
  apply (registry_frame_trace st); auto. apply incl_of_eq. now rewrite Hr.
Qed.

Lemma registry_frame_log lvl msg st :
  registry_frame st0 st -> registry_frame st0 (emit (Log lvl msg) st).
Proof.
  apply registry_frame_trace; try reflexivity.
  apply incl_of_eq. trace_simpl. reflexivity.
Qed.

Lemma alerts_in_window_version c a f v :
  preserves (alerts_in_window c a) (process_version w c a f v).
Proof.
  intros st H. unfold alerts_in_window in *.
  destruct (process_version_classified w c a f v st) as (_ & _ & Heff).
  pose proof (alert_entry_classify w c a (clock w (ticks st)) f v) as Hae.
  unfold version_effect, same_lists in Heff.
  destruct (classify w c a (clock w (ticks st)) f v).
  - rewrite Heff. exact H.
  - destruct Heff as (_ & (Ha & _) & _). now rewrite Ha.
  - destruct Heff as (_ & Ha & _). rewrite Ha.
    apply Forall_app. split; [exact H |].
    constructor; [| constructor].
    apply (alert_entry_window w c a f v). rewrite Hae. now left.
  - destruct Heff as (_ & (Ha & _) & _). now rewrite Ha.
  - destruct Heff as (_ & (Ha & _) & _). now rewrite Ha.
  - destruct Heff as (_ & Ha & _). now rewrite Ha.
Qed.

End RunFacts.

Lemma alerts_in_window_alert (w : world) (c a : datetime) al dl :
  preserves (alerts_in_window c a) (send_cleanup_alert w al dl).
Proof.
  intros st H. unfold alerts_in_window in *.
  destruct (send_cleanup_alert_run w al dl st) as (_ & Ha & _). now rewrite Ha.
Qed.

(** No instant is after the cutoff and at or before an alert date that is
    itself at or before the cutoff. *)
Lemma window_empty (c a lm : datetime) :
  dt_le a c = inr true -> dt_gt lm c = inr true -> dt_le lm a = inr true -> False.
Proof.
  unfold dt_le, dt_gt.
  destruct (tzinfo a), (tzinfo c), (tzinfo lm); try discriminate;
    intros H1 H2 H3; injection H1 as H1; injection H2 as H2; injection H3 as H3;
    apply Z.leb_le in H1; apply Z.ltb_lt in H2; apply Z.leb_le in H3; lia.
Qed.

(** X5. In every run, whether it returns or raises, the delete requests
    issued are exactly the [(function, version)] pairs of the entries of
    [deleted_versions], one request per entry and in the same order. *)
Theorem delete_requests_follow_deleted_list (w : world) (cutoff_date alert_date : datetime)
    (fns : list (list string)) (vers : string -> list (list version_cfg)) :
  requests_match (snd (cleanup w cutoff_date alert_date (initial_state fns vers))) /\
  requests_match (snd (lambda_handler w (initial_state fns vers))).
Proof.
  split.
  - apply invariant_cleanup;
      auto using requests_match_log, requests_match_alert, requests_match_version.
    reflexivity.
  - apply invariant_handler;
      auto using requests_match_log, requests_match_alert, requests_match_version.
    reflexivity.
Qed.

(** X6. A run never changes the listing of functions and never adds a
    version; a version that was listed before the run and is not listed
    after it was named by a delete request of the run.  This holds whether
    the run returns or raises. *)
Theorem registry_only_loses_requested_versions (w : world)
    (cutoff_date alert_date : datetime)
    (fns : list (list string)) (vers : string -> list (list version_cfg)) :
  registry_frame (initial_state fns vers)
    (snd (cleanup w cutoff_date alert_date (initial_state fns vers))) /\
  registry_frame (initial_state fns vers)
    (snd (lambda_handler w (initial_state fns vers))).
Proof.
  set (st0 := initial_state fns vers).
  assert (H0 : registry_frame st0 (set_deleted [] (set_alert [] st0))).
  { split; [reflexivity | split].
    - intros f. apply incl_refl.
    - intros f v Hv. now left. }
  split.
  - apply invariant_cleanup;
      auto using registry_frame_log, registry_frame_alert, registry_frame_version.
  - apply invariant_handler;
      auto using registry_frame_log, registry_frame_alert, registry_frame_version.
Qed.

(** X7. Every entry of [alert_versions] is newer than the cutoff and not
    newer than the alert date, in any run from any state, for lines 57-97
    under any two dates and for the handler with the dates it computes. *)
Theorem alerts_lie_in_window (w : world) (cutoff_date alert_date : datetime)
    (st : state) :
  alerts_in_window cutoff_date alert_date (snd (cleanup w cutoff_date alert_date st)) /\
  alerts_in_window (handler_cutoff w st) (handler_alert w st)
    (snd (lambda_handler w st)).
Proof.
  split.
  - apply invariant_cleanup; auto using alerts_in_window_alert, alerts_in_window_version.
    constructor.
  - apply invariant_handler; auto using alerts_in_window_alert, alerts_in_window_version.
    constructor.
Qed.

(** X8. When the alert date is not after the cutoff the alert window is
    empty and no version is ever alerted.  For the handler this is the case
    when [ALERT_DAYS] is zero or negative and the clock does not advance
    between lines 54 and 55 (or advances by less than the lead is short). *)
Theorem no_alert_without_lead (w : world) (cutoff_date alert_date : datetime)
    (st : state) :
  (dt_le alert_date cutoff_date = inr true ->
   alert_versions (snd (cleanup w cutoff_date alert_date st)) = []) /\
  (clock w (S (ticks st)) + timedelta_days (ALERT_DAYS w) <= clock w (ticks st) ->
   alert_versions (snd (lambda_handler w st)) = []).
Proof.
  assert (Hempty : forall c a s,
            dt_le a c = inr true -> alerts_in_window c a s -> alert_versions s = []).
  { intros c a s Hle Hw. unfold alerts_in_window in Hw.
    destruct (alert_versions s) as [| e l]; [reflexivity |].
    inversion Hw as [| x xs [Hgt Hle'] _]; subst.
    destruct (window_empty c a (entry_modified e) Hle Hgt Hle'). }
  split.
  - intros Hle. apply (Hempty cutoff_date alert_date); [exact Hle |].
    apply invariant_cleanup;
      auto using alerts_in_window_alert, alerts_in_window_version.
    constructor.
  - intros Hlead. apply (Hempty (handler_cutoff w st) (handler_alert w st));
      [| apply invariant_handler;
         auto using alerts_in_window_alert, alerts_in_window_version;
         constructor].
    unfold dt_le, handler_alert, handler_cutoff, dt_sub, timedelta_days in *. simpl.
    f_equal. apply Z.leb_le. lia.
Qed.

Lemma no_alert_without_lead_witness :
  alert_versions
    (snd (cleanup scenario_world aware_cutoff aware_cutoff alert_window_state)) = [].
Proof.
  exact (proj1 (no_alert_without_lead scenario_world aware_cutoff aware_cutoff
                  alert_window_state) eq_refl).
Defined.

(** ** The notification guard and the recipients *)

(** X9. Whether [send_cleanup_alert] sends depends on the sender alone: with
    [EMAIL_SENDER] unset or empty it logs the configuration error and
    attempts no send; otherwise it attempts exactly one send, to the
    recipients as line 39 split them, and logs an error only if that send
    fails.  The value of [EMAIL_RECIPIENTS] never makes it skip. *)
Theorem alert_skipped_iff_no_sender (w : world) (al dl : list entry) (st : state) :
  let r := send_cleanup_alert w al dl st in
  if truthy_opt (EMAIL_SENDER w)
  then
    send_attempts (trace (snd r))
    = (send_attempts (trace st)
       ++ [(sender_of w, EMAIL_RECIPIENTS w, message_body w al dl)])%list /\
    error_logs (trace (snd r))
    = (error_logs (trace st)
       ++ match send_fault w (sender_of w) (EMAIL_RECIPIENTS w) (message_body w al dl) with
          | Some e => [MsgEmailFailed e]
          | None => []
          end)%list
  else
    send_attempts (trace (snd r)) = send_attempts (trace st) /\
    error_logs (trace (snd r)) = (error_logs (trace st) ++ [MsgMissingEmailConfig])%list.
Proof.
  intros r. subst r. unfold send_cleanup_alert, sender_of.
  rewrite recipients_truthy.
  destruct (EMAIL_SENDER w) as [[| ch s] |]; simpl.
  - split; trace_simpl; reflexivity.
  - unfold ses_send_email, try_except, bind, modify, log, raise, ret; simpl.
    destruct (send_fault w (String ch s) (EMAIL_RECIPIENTS w) (message_body w al dl));
      simpl; split; trace_simpl; reflexivity.
  - split; trace_simpl; reflexivity.
Qed.

Lemma concat_split_comma (s : string) : String.concat "," (split_comma s) = s.
Proof.
  induction s as [| ch s IH]; [reflexivity |].
  cbn [split_comma]. pose proof (split_comma_nonempty s) as Hne.
  destruct (Ascii.eqb ch ","%char) eqn:Hc.
  - apply Ascii.eqb_eq in Hc. subst ch.
    destruct (split_comma s) as [| h t]; [congruence |].
    change (String.concat "," ("" :: h :: t))
      with ("" ++ "," ++ String.concat "," (h :: t)).
    rewrite IH. reflexivity.
  - destruct (split_comma s) as [| h [| h' t]]; [congruence | |].
    + simpl in *. now subst.
    + change (String.concat "," (String ch h :: h' :: t))
        with (String ch h ++ "," ++ String.concat "," (h' :: t)).
      change (String.concat "," (h :: h' :: t))
        with (h ++ "," ++ String.concat "," (h' :: t)) in IH.
      rewrite <- IH. reflexivity.
Qed.

Lemma split_comma_no_comma (s : string) :
  Forall (fun x => has_comma x = false) (split_comma s).
Proof.
  induction s as [| ch s IH]; [repeat constructor |].
  cbn [split_comma].
  destruct (Ascii.eqb ch ","%char) eqn:Hc.
  - constructor; [reflexivity | exact IH].
  - destruct (split_comma s) as [| h t]; [repeat constructor; simpl; now rewrite Hc |].
    inversion IH as [| x xs Hh Ht]; subst.
    constructor; [simpl; now rewrite Hc | exact Ht].
Qed.

Lemma split_comma_length (s : string) :
  List.length (split_comma s) = S (count_commas s).
Proof.
  induction s as [| ch s IH]; [reflexivity |].
  cbn [split_comma count_commas].
  destruct (Ascii.eqb ch ","%char).
  - simpl. now rewrite IH.
  - destruct (split_comma s) as [| h t]; [discriminate | exact IH].
Qed.

(** X10. Line 39 loses nothing and drops nothing: the recipients joined
    with commas are the text of [EMAIL_RECIPIENTS] again (the empty text when
    it is unset), there is one recipient more than the text has commas, so
    never none, and no recipient holds a comma.  Blanks and empty pieces are
    kept as they are. *)
Theorem recipients_split_round_trip (w : world) :
  let text := match env_EMAIL_RECIPIENTS w with Some s => s | None => ""%string end in
  String.concat "," (EMAIL_RECIPIENTS w) = text /\
  List.length (EMAIL_RECIPIENTS w) = S (count_commas text) /\
  Forall (fun x => has_comma x = false) (EMAIL_RECIPIENTS w).
Proof.
  intros text. unfold EMAIL_RECIPIENTS. fold text.
  split; [apply concat_split_comma |].
  split; [apply split_comma_length | apply split_comma_no_comma].
Qed.

(** ** The log of a run *)

Lemma extends_refl (st : state) : extends (trace st) st.
Proof. exists []. split; [now rewrite app_nil_r | constructor]. Qed.

Lemma extends_emit (tr0 : list event) (e : event) (st : state) :
  closing_record e = false -> extends tr0 st -> extends tr0 (emit e st).
Proof.
  intros He (tr & Htr & Hq). exists (tr ++ [e])%list. split.
  - simpl. rewrite Htr. now rewrite app_assoc.
  - apply Forall_app. split; [exact Hq | now constructor].
Qed.

Ltac extends_modify :=
  first
    [ apply preserves_modify; intros ? ?; apply extends_emit; [reflexivity | assumption]
    | apply preserves_modify; intros ? ?; assumption
    | intros ? ?; assumption ].

Lemma extends_process_all (w : world) (c a : datetime) (tr0 : list event) :
  preserves (extends tr0) (process_all w c a).
Proof.
  unfold process_all, process_function, process_version, parse_last_modified,
    get_invocation_count, cloudwatch_get_metric_statistics, delete_lambda_version,
    lambda_delete_function, log.
  preserve; extends_modify.
Qed.

Lemma extends_notify (w : world) (tr0 : list event) : preserves (extends tr0) (notify w).
Proof.
  unfold notify, send_cleanup_alert, ses_send_email, log.
  preserve; extends_modify.
Qed.

Lemma notify_returns (w : world) (st : state) : fst (notify w st) = inr tt.
Proof.
  rewrite notify_eq.
  destruct (truthy_list (alert_versions st) || truthy_list (deleted_versions st));
    [| reflexivity].
  apply send_cleanup_alert_run.
Qed.

Lemma cleanup_log (w : world) (c a : datetime) (st : state) :
  exists tr,
    trace (snd (cleanup w c a st))
    = (trace st ++ tr
       ++ match fst (cleanup w c a st) with
          | inr _ => [Log INFO MsgCompleted]
          | inl _ => []
          end)%list /\
    Forall (fun e => closing_record e = false) tr.
Proof.
  rewrite cleanup_eq, bind_run.
  pose proof (extends_process_all w c a (trace st) (set_deleted [] (set_alert [] st))
                (extends_refl st)) as H1.
  destruct (process_all w c a (set_deleted [] (set_alert [] st))) as [[e | []] s1];
    cbn [fst snd] in *.
  - destruct H1 as (tr & Htr & Hq). exists tr. now rewrite app_nil_r.
  - rewrite bind_run.
    pose proof (extends_notify w (trace st) s1 H1) as H2.
    pose proof (notify_returns w s1) as Hn.
    destruct (notify w s1) as [[e | []] s2]; cbn [fst snd] in *; [discriminate |].
    destruct H2 as (tr & Htr & Hq). exists tr. split; [| exact Hq].
    simpl. rewrite Htr. now rewrite app_assoc.
Qed.

(** X11. The log of a run of the handler: the two opening records of lines
    50-51 come first, one closing record comes last, the completion record
    of line 97 when the handler returns and the error record of line 100,
    with the exception, when it raises; no closing record appears in
    between, and nothing that was in the trace before is lost. *)
Theorem handler_log_protocol (w : world) (st : state) :
  exists tr,
    trace (snd (lambda_handler w st))
    = (trace st
       ++ [Log INFO MsgStarting; Log INFO (MsgSettings (RETENTION_DAYS w) (ALERT_DAYS w))]
       ++ tr
       ++ [match fst (lambda_handler w st) with
           | inr _ => Log INFO MsgCompleted
           | inl e => Log ERROR (MsgCleanupError e)
           end])%list /\
    Forall (fun e => closing_record e = false) tr.
Proof.
  rewrite lambda_handler_eq.
  destruct (cleanup_log w (handler_cutoff w st) (handler_alert w st) (handler_entry w st))
    as (tr & Htr & Hq).
  exists tr. split; [| exact Hq].
  destruct (cleanup w _ _ (handler_entry w st)) as [[e | []] s1]; cbn [fst snd] in *.
  - simpl. rewrite Htr. simpl. rewrite app_nil_r.
    repeat rewrite <- app_assoc. reflexivity.
  - rewrite Htr. simpl. repeat rewrite <- app_assoc. reflexivity.
Qed.

(** ** A version that was invoked is kept *)

Lemma fold_left_add_shift (l : list Z) (x : Z) :
  fold_left Z.add l x = x + fold_left Z.add l 0.
Proof.
  revert x. induction l as [| y l IH]; intros x; simpl; [lia |].
  rewrite (IH (x + y)), (IH y). lia.
Qed.

Lemma sum_Z_cons (x : Z) (l : list Z) : sum_Z (x :: l) = x + sum_Z l.
Proof. unfold sum_Z. simpl. apply fold_left_add_shift. Qed.

Lemma sum_Z_nonneg (l : list Z) : Forall (fun x => 0 <= x) l -> 0 <= sum_Z l.
Proof.
  induction 1 as [| x l Hx Hl IH]; [reflexivity |]. rewrite sum_Z_cons. lia.
Qed.

Lemma sum_Z_pos (l : list Z) :
  Forall (fun x => 0 <= x) l -> Exists (fun x => 0 < x) l -> 0 < sum_Z l.
Proof.
  intros Hall Hex. induction Hex as [x l Hx | x l Hex IH];
    inversion Hall as [| y l' Hy Hl]; subst; rewrite sum_Z_cons.
  - pose proof (sum_Z_nonneg l Hl). lia.
  - specialize (IH Hl). lia.
Qed.

Section InUse.

Variable w : world.
Variables c a : datetime.
Variables f q : string.
Variable st0 : state.
Hypothesis Huse : in_use w c f q.

Lemma in_use_not_deleted (t : Z) (v : version_cfg) (lm : datetime) :
  Version v = q -> classify w c a t f v <> VDelete lm.
Proof.
  intros Hq. unfold classify. destruct (is_sentinel v); [discriminate |].
  destruct (strptime w (LastModified v)) as [[fields offset] |]; [| discriminate].
  cbv zeta. destruct (dt_gt (mk_datetime fields offset) c) as [e | [|]]; [discriminate | |].
  - destruct (dt_le (mk_datetime fields offset) a) as [e | [|]]; discriminate.
  - rewrite Hq. unfold invocation_count_at.
    destruct (Huse t) as (sums & -> & Hall & Hex).
    pose proof (sum_Z_pos sums Hall Hex) as Hpos.
    apply Z.ltb_lt in Hpos. rewrite Hpos. discriminate.
Qed.

Lemma kept_same (st st' : state) :
  version_pages st' = version_pages st ->
  delete_requests (trace st') = delete_requests (trace st) ->
  kept f q st0 st -> kept f q st0 st'.
Proof.
  intros Hvp Hr (H1 & H2). split.
  - now rewrite Hr.
  - intros v Hv Hq. rewrite (listed_same _ _ Hvp). now apply H2.
Qed.

Lemma kept_version (g : string) (v : version_cfg) :
  preserves (kept f q st0) (process_version w c a g v).
Proof.
  intros st H.
  destruct (process_version_classified w c a g v st) as (_ & _ & Heff).
  unfold version_effect, same_lists in Heff.
  destruct (classify w c a (clock w (ticks st)) g v) as [| e | lm | lm | lm n | lm] eqn:Hd.
  - rewrite Heff. exact H.
  - destruct Heff as (_ & _ & Hvp & Hc). apply (kept_same st); auto.
    rewrite <- delete_requests_calls, Hc, delete_requests_calls. reflexivity.
  - destruct Heff as (_ & _ & _ & Hvp & Hc). apply (kept_same st); auto.
    rewrite <- delete_requests_calls, Hc, delete_requests_calls. reflexivity.
  - destruct Heff as (_ & _ & Hvp & Hc). apply (kept_same st); auto.
    rewrite <- delete_requests_calls, Hc, delete_requests_calls. reflexivity.
  - destruct Heff as (_ & _ & Hvp & Hr). apply (kept_same st); auto.
  - destruct Heff as (_ & _ & _ & Hr & Hreg).
    assert (Hne : g = f -> Version v <> q).
    { intros -> Hq. exact (in_use_not_deleted _ _ _ Hq Hd). }
    destruct H as (H1 & H2). split.
    + rewrite Hr. intros Hin. apply in_app_or in Hin. destruct Hin as [Hin | [Heq | []]].
      * exact (H1 Hin).
      * injection Heq as Hg Hq. exact (Hne Hg Hq).
    + intros x Hx Hq. specialize (H2 x Hx Hq).
      destruct (delete_fault w g (Version v)).
      * now rewrite (listed_same _ _ Hreg).
      * rewrite Hreg. destruct (String.eqb f g) eqn:Hg; [| exact H2].
        apply String.eqb_eq in Hg. apply filter_In. split; [exact H2 |].
        apply Bool.negb_true_iff, String.eqb_neq. rewrite Hq.
        intros Heq. exact (Hne (eq_sym Hg) (eq_sym Heq)).
Qed.

Lemma kept_alert (al dl : list entry) : preserves (kept f q st0) (send_cleanup_alert w al dl).
Proof.
  intros st H.
  destruct (send_cleanup_alert_run w al dl st) as (_ & _ & _ & _ & Hvp & Hr & _).
  now apply (kept_same st).
Qed.

Lemma kept_log lvl msg st : kept f q st0 st -> kept f q st0 (emit (Log lvl msg) st).
Proof. apply kept_same; [reflexivity |]. trace_simpl. reflexivity. Qed.

End InUse.

(** X12. A version with an invocation in the window is kept: when the
    metric service answers for version [q] of [f] with datapoints that are
    not negative and one of which is positive, a run issues no delete
    request for it, and what the registry listed under that identifier it
    still lists, whatever else the run deletes and however it ends. *)
Theorem invoked_version_is_kept (w : world) (cutoff_date alert_date : datetime)
    (f q : string) (st : state) :
  ~ In (f, q) (delete_requests (trace st)) ->
  (in_use w cutoff_date f q ->
   kept f q st (snd (cleanup w cutoff_date alert_date st))) /\
  (in_use w (handler_cutoff w st) f q ->
   kept f q st (snd (lambda_handler w st))).
Proof.
  intros Hnew.
  assert (H0 : kept f q st (set_deleted [] (set_alert [] st))).
  { split; [exact Hnew | trivial]. }
  split; intros Huse.
  - apply invariant_cleanup;
      eauto using kept_log, kept_alert, kept_version.
  - apply invariant_handler;
      eauto using kept_log, kept_alert, kept_version.
Qed.

Lemma invoked_version_is_kept_witness :
  kept "fn" "2" scenario_state
    (snd (cleanup scenario_world aware_cutoff aware_alert scenario_state)).
Proof.
  refine (proj1 (invoked_version_is_kept scenario_world aware_cutoff aware_alert
                   "fn" "2" scenario_state _) _).
  - simpl. tauto.
  - intros t. exists [1]. repeat split.
    + repeat constructor; lia.
    + constructor. lia.
Defined.

(** ** The two lists of a run that returns *)

Lemma flat_map_flat_map {A B C} (g : B -> list C) (h : A -> list B) (l : list A) :
  flat_map g (flat_map h l) = flat_map (fun x => flat_map g (h x)) l.
Proof.
  induction l as [| x l IH]; simpl; [reflexivity |].
  now rewrite flat_map_app, IH.
Qed.

Lemma flat_map_map {A B C} (g : B -> list C) (h : A -> B) (l : list A) :
  flat_map g (map h l) = flat_map (fun x => g (h x)) l.
Proof. induction l as [| x l IH]; simpl; [reflexivity | now rewrite IH]. Qed.

Lemma flat_map_ext_In {A B} (g h : A -> list B) (l : list A) :
  (forall x, In x l -> g x = h x) -> flat_map g l = flat_map h l.
Proof.
  induction l as [| x l IH]; intros H; simpl; [reflexivity |].
  rewrite (H x (or_introl eq_refl)), IH; [reflexivity |].
  intros y Hy. apply H. now right.
Qed.

Section Lists.

Variable w : world.
Variables c a : datetime.

(** What a pass that returns leaves in the two lists; the deleted entries
    are those of one reading of the clock when the clock stands. *)
Let lists_effect (F : list string) (alerts deletions : list entry) (st st' : state)
  : Prop :=
  function_pages st' = function_pages st /\
  (forall g, ~ In g F -> listed_versions st' g = listed_versions st g) /\
  alert_versions st' = (alert_versions st ++ alerts)%list /\
  ((forall n, clock w n = clock w 0%nat) ->
   deleted_versions st' = (deleted_versions st ++ deletions)%list).

Lemma lists_versions (f : string) (l : list version_cfg) : forall st st',
  for_each l (process_version w c a f) st = (inr tt, st') ->
  lists_effect [f] (flat_map (alert_entry w c a f) l)
    (flat_map (delete_entry w c (clock w 0%nat) f) l) st st'.
Proof.
  induction l as [| v l IH]; intros st st' Hrun.
  - simpl in Hrun. injection Hrun as <-. unfold lists_effect. simpl.
    repeat rewrite app_nil_r. auto.
  - cbn [for_each] in Hrun. rewrite bind_run in Hrun.
    destruct (process_version_classified w c a f v st) as (Hfp & _ & Heff).
    cbn [flat_map].
    rewrite (alert_entry_classify w c a (clock w (ticks st)) f v).
    assert (Hdel : (forall n, clock w n = clock w 0%nat) ->
              delete_entry w c (clock w 0%nat) f v
              = match classify w c a (clock w (ticks st)) f v with
                | VDelete lm => [(f, Version v, lm)]
                | _ => []
                end).
    { intros Hclock. rewrite (delete_entry_classify w c a).
      now rewrite <- (Hclock (ticks st)). }
    unfold version_effect, same_lists in Heff.
    destruct (process_version w c a f v st) as [[e | []] st1]; cbn [fst snd] in *.
    { discriminate. }
    destruct (IH _ _ Hrun) as (H1 & H2 & H3 & H4).
    assert (Hother : forall g, ~ In g [f] ->
              listed_versions st1 g = listed_versions st g).
    { intros g Hg.
      destruct (classify w c a (clock w (ticks st)) f v).
      - now injection Heff as <-.
      - destruct Heff as (He & _). discriminate.
      - apply listed_same. tauto.
      - apply listed_same. tauto.
      - apply listed_same. tauto.
      - destruct Heff as (_ & _ & _ & _ & Hreg).
        destruct (delete_fault w f (Version v)); [now apply listed_same |].
        rewrite Hreg. destruct (String.eqb g f) eqn:Hgf; [| reflexivity].
        apply String.eqb_eq in Hgf. subst g. simpl in Hg. tauto. }
    unfold lists_effect. repeat split.
    + congruence.
    + intros g Hg. rewrite (H2 g Hg). now apply Hother.
    + rewrite H3.
      destruct (classify w c a (clock w (ticks st)) f v);
        try (destruct Heff as (He & Heff); try discriminate).
      * injection Heff as <-. reflexivity.
      * destruct Heff as (-> & _). now rewrite <- app_assoc.
      * destruct Heff as ((-> & _) & _). reflexivity.
      * destruct Heff as ((-> & _) & _). reflexivity.
      * destruct Heff as (-> & _). reflexivity.
    + intros Hclock. rewrite (H4 Hclock), (Hdel Hclock).
      destruct (classify w c a (clock w (ticks st)) f v);
        try (destruct Heff as (He & Heff); try discriminate).
      * injection Heff as <-. reflexivity.
      * destruct Heff as (_ & -> & _). reflexivity.
      * destruct Heff as ((_ & ->) & _). reflexivity.
      * destruct Heff as ((_ & ->) & _). reflexivity.
      * destruct Heff as (_ & -> & _). now rewrite <- app_assoc.
Qed.

Lemma lists_function (f : string) (st st' : state) :
  process_function w c a f st = (inr tt, st') ->
  lists_effect [f] (flat_map (alert_entry w c a f) (listed_versions st f))
    (flat_map (delete_entry w c (clock w 0%nat) f) (listed_versions st f)) st st'.
Proof.
  rewrite process_function_eq, for_each_concat. intros Hrun.
  exact (lists_versions f _ _ _ Hrun).
Qed.

Lemma lists_functions (F : list string) : forall st st',
  NoDup F ->
  for_each F (process_function w c a) st = (inr tt, st') ->
  lists_effect F
    (flat_map (fun f => flat_map (alert_entry w c a f) (listed_versions st f)) F)
    (flat_map (fun f => flat_map (delete_entry w c (clock w 0%nat) f)
                          (listed_versions st f)) F)
    st st'.
Proof.
  induction F as [| f F IH]; intros st st' Hnd Hrun.
  - simpl in Hrun. injection Hrun as <-. unfold lists_effect. simpl.
    repeat rewrite app_nil_r. auto.
  - cbn [for_each] in Hrun. rewrite bind_run in Hrun.
    inversion Hnd as [| x l Hf HF]; subst.
    destruct (process_function w c a f st) as [[e | []] st1] eqn:Hone; [discriminate |].
    destruct (lists_function f st st1 Hone) as (G1 & G2 & G3 & G4).
    destruct (IH st1 st' HF Hrun) as (H1 & H2 & H3 & H4).
    assert (Hsame : forall (sel : string -> version_cfg -> list entry),
              flat_map (fun g => flat_map (sel g) (listed_versions st1 g)) F
              = flat_map (fun g => flat_map (sel g) (listed_versions st g)) F).
    { intros sel. apply flat_map_ext_In. intros g Hg. rewrite G2; [reflexivity |].
      simpl. intros [<- | []]. contradiction. }
    unfold lists_effect. cbn [flat_map]. repeat split.
    + congruence.
    + intros g Hg. rewrite H2, G2; [reflexivity | |]; simpl in *; tauto.
    + rewrite H3, G3, Hsame. now rewrite <- app_assoc.
    + intros Hclock. rewrite (H4 Hclock), (G4 Hclock), Hsame. now rewrite <- app_assoc.
Qed.

Lemma enumeration_flat (sel : string -> version_cfg -> list entry) (st : state) :
  flat_map (fun p => sel (fst p) (snd p)) (enumeration st)
  = flat_map (fun f => flat_map (sel f) (listed_versions st f)) (listed_functions st).
Proof.
  unfold enumeration. rewrite flat_map_flat_map.
  apply flat_map_ext. intros f. now rewrite flat_map_map.
Qed.

Lemma lists_cleanup (st : state) :
  NoDup (listed_functions st) ->
  fst (cleanup w c a st) = inr tt ->
  alert_versions (snd (cleanup w c a st)) = expected_alerts w c a st /\
  ((forall n, clock w n = clock w 0%nat) ->
   deleted_versions (snd (cleanup w c a st))
   = expected_deletions w c (clock w 0%nat) st).
Proof.
  intros Hnd. unfold expected_alerts, expected_deletions.
  repeat rewrite enumeration_flat.
  rewrite cleanup_eq, bind_run, process_all_eq, for_each_concat.
  destruct (for_each _ (process_function w c a) (set_deleted [] (set_alert [] st)))
    as [[e | []] s1] eqn:Hall; [discriminate |].
  intros _.
  destruct (lists_functions _ _ _ Hnd Hall) as (_ & _ & H3 & H4).
  rewrite bind_run.
  pose proof (notify_returns w s1) as Hn. rewrite notify_eq in *.
  destruct (truthy_list (alert_versions s1) || truthy_list (deleted_versions s1)).
  - destruct (send_cleanup_alert_run w (alert_versions s1) (deleted_versions s1) s1)
      as (_ & Ha & Hd & _).
    destruct (send_cleanup_alert w (alert_versions s1) (deleted_versions s1) s1)
      as [[e | []] s2]; [discriminate |]. cbn [fst snd] in *.
    split.
    + transitivity (alert_versions s2); [reflexivity | now rewrite Ha, H3].
    + intros Hclock.
      transitivity (deleted_versions s2); [reflexivity | now rewrite Hd, (H4 Hclock)].
  - cbn [fst snd]. split; [exact H3 | exact H4].
Qed.

End Lists.

Lemma lists_handler (w : world) (st : state) :
  NoDup (listed_functions st) ->
  fst (lambda_handler w st) = inr tt ->
  alert_versions (snd (lambda_handler w st))
  = expected_alerts w (handler_cutoff w st) (handler_alert w st) st /\
  ((forall n, clock w n = clock w 0%nat) ->
   deleted_versions (snd (lambda_handler w st))
   = expected_deletions w (handler_cutoff w st) (clock w 0%nat) st).
Proof.
  intros Hnd. rewrite lambda_handler_eq.
  pose proof (lists_cleanup w (handler_cutoff w st) (handler_alert w st)
                (handler_entry w st) Hnd) as H.
  destruct (cleanup w _ _ (handler_entry w st)) as [[e | []] s1]; [discriminate |].
  intros _. exact (H eq_refl).
Qed.

(** X13. When the functions are listed once each and the run returns, the
    alert list is complete and in order: it holds, for every version of the
    enumeration that is not the sentinel and whose date is newer than the
    cutoff and not newer than the alert date, one entry with the function,
    the version and the parsed date, in the order of the loops, and nothing
    else. *)
Theorem alert_list_is_complete (w : world) (cutoff_date alert_date : datetime)
    (st : state) :
  NoDup (listed_functions st) ->
  (fst (cleanup w cutoff_date alert_date st) = inr tt ->
   alert_versions (snd (cleanup w cutoff_date alert_date st))
   = expected_alerts w cutoff_date alert_date st) /\
  (fst (lambda_handler w st) = inr tt ->
   alert_versions (snd (lambda_handler w st))
   = expected_alerts w (handler_cutoff w st) (handler_alert w st) st).
Proof.
  intros Hnd. split; intros Hret.
  - now apply lists_cleanup.
  - now apply lists_handler.
Qed.

Lemma alert_list_is_complete_witness :
  alert_versions (snd (cleanup scenario_world aware_cutoff aware_alert alert_window_state))
  = expected_alerts scenario_world aware_cutoff aware_alert alert_window_state.
Proof.
  refine (proj1 (alert_list_is_complete scenario_world aware_cutoff aware_alert
                   alert_window_state _) _).
  - repeat constructor. simpl. tauto.
  - reflexivity.
Defined.

(** X14. When, besides, the clock stands, the deleted list is complete and
    in order: it holds one entry for every version of the enumeration that
    is not the sentinel, whose date is at or before the cutoff, and whose
    invocation count is not positive, and nothing else; whether the
    deletions succeeded plays no part. *)
Theorem deleted_list_is_complete (w : world) (cutoff_date alert_date : datetime)
    (st : state) :
  NoDup (listed_functions st) ->
  (forall n, clock w n = clock w 0%nat) ->
  (fst (cleanup w cutoff_date alert_date st) = inr tt ->
   deleted_versions (snd (cleanup w cutoff_date alert_date st))
   = expected_deletions w cutoff_date (clock w 0%nat) st) /\
  (fst (lambda_handler w st) = inr tt ->
   deleted_versions (snd (lambda_handler w st))
   = expected_deletions w (handler_cutoff w st) (clock w 0%nat) st).
Proof.
  intros Hnd Hclock. split; intros Hret.
  - now apply lists_cleanup.
  - now apply lists_handler.
Qed.

Lemma deleted_list_is_complete_witness :
  deleted_versions (snd (cleanup denied_world aware_cutoff aware_alert scenario_state))
  = expected_deletions denied_world aware_cutoff (clock denied_world 0%nat) scenario_state.
Proof.
  refine (proj1 (deleted_list_is_complete denied_world aware_cutoff aware_alert
                   scenario_state _ _) _).
  - repeat constructor. simpl. tauto.
  - reflexivity.
  - reflexivity.
Defined.

(** ** The metric lookups of a run *)

Section Lookups.

Variable w : world.
Variable c : datetime.

Let W (st : state) : Prop := Forall (lookup_in_window w c) (trace st).

Lemma window_emit (e : event) (st : state) :
  lookup_in_window w c e -> W st -> W (emit e st).
Proof. intros He H. apply Forall_app. split; [exact H | now constructor]. Qed.

Lemma window_log lvl msg st : W st -> W (emit (Log lvl msg) st).
Proof. apply window_emit. exact I. Qed.

Lemma window_count (f v : string) : preserves W (get_invocation_count w f v c).
Proof.
  intros st H.
  unfold get_invocation_count, cloudwatch_get_metric_statistics, try_except, bind, now,
    lift, log, modify, ret. simpl.
  assert (Hq : lookup_in_window w c
            (GetMetricStatistics f (f ++ ":" ++ v) c (mk_datetime (clock w (ticks st)) None))).
  { simpl. repeat split; [now exists (ticks st) | now exists v]. }
  destruct (metric_sums w f _ c _); simpl;
    apply Forall_app; (split; [| now repeat constructor]);
    apply Forall_app; (split; [exact H | constructor; [exact Hq | constructor]]).
Qed.

Lemma window_version (a : datetime) (f : string) (v : version_cfg) :
  preserves W (process_version w c a f v).
Proof.
  unfold process_version, parse_last_modified, delete_lambda_version,
    lambda_delete_function, log.
  preserve; try apply window_count;
    first
      [ apply preserves_modify; intros ? ?; apply window_emit; [exact I | assumption]
      | apply preserves_modify; intros ? ?; assumption ].
Qed.

Lemma window_alert (al dl : list entry) : preserves W (send_cleanup_alert w al dl).
Proof.
  unfold send_cleanup_alert, ses_send_email, log.
  preserve;
    apply preserves_modify; intros ? ?; (apply window_emit; [exact I | assumption]).
Qed.

End Lookups.

(** X15. Every metric lookup of a run asks for the invocations of one
    version, named [function:version], over the window that starts at the
    cutoff date of the run, whatever the age of the version, and ends at a
    naive reading of the clock. *)
Theorem lookups_ask_from_cutoff (w : world) (cutoff_date alert_date : datetime)
    (fns : list (list string)) (vers : string -> list (list version_cfg)) :
  Forall (lookup_in_window w cutoff_date)
    (trace (snd (cleanup w cutoff_date alert_date (initial_state fns vers)))) /\
  Forall (lookup_in_window w (handler_cutoff w (initial_state fns vers)))
    (trace (snd (lambda_handler w (initial_state fns vers)))).
Proof.
  split.
  - apply (invariant_cleanup w cutoff_date alert_date
             (fun st => Forall (lookup_in_window w cutoff_date) (trace st)));
      auto using window_log, window_alert, window_version.
  - apply (invariant_handler w
             (fun st => Forall (lookup_in_window w
                                  (handler_cutoff w (initial_state fns vers))) (trace st)));
      auto using window_log, window_alert, window_version.
Qed.

(** ** The message *)

Lemma sappend_assoc (x y z : string) : ((x ++ y) ++ z = x ++ y ++ z)%string.
Proof. induction x as [| ch x IH]; simpl; [reflexivity | now rewrite IH]. Qed.

Lemma sappend_nil_r (x : string) : (x ++ "" = x)%string.
Proof. induction x as [| ch x IH]; simpl; [reflexivity | now rewrite IH]. Qed.

Lemma occurs_here (x : string) : occurs_in x x.
Proof. exists ""%string, ""%string. now rewrite sappend_nil_r. Qed.

Lemma occurs_left (x p t : string) : occurs_in x t -> occurs_in x (p ++ t).
Proof.
  intros (p' & s' & ->). exists (p ++ p')%string, s'. now rewrite sappend_assoc.
Qed.

Lemma occurs_right (x t s : string) : occurs_in x t -> occurs_in x (t ++ s).
Proof.
  intros (p' & s' & ->). exists p', (s' ++ s)%string.
  now repeat rewrite sappend_assoc.
Qed.

Lemma table_rows_from (w : world) (l : list entry) (body : string) :
  fold_left (fun body e => body ++ table_row w e) l body
  = (body ++ table_rows w l)%string.
Proof.
  unfold table_rows. revert body.
  induction l as [| e l IH]; intros body; cbn [fold_left].
  - now rewrite sappend_nil_r.
  - rewrite (IH (body ++ table_row w e)%string), (IH ("" ++ table_row w e)%string).
    now rewrite sappend_assoc.
Qed.

Lemma table_rows_cons (w : world) (e : entry) (l : list entry) :
  table_rows w (e :: l) = (table_row w e ++ table_rows w l)%string.
Proof. unfold table_rows at 1. cbn [fold_left]. apply table_rows_from. Qed.

Lemma table_rows_occurs (w : world) (e : entry) (l : list entry) :
  In e l -> occurs_in (table_row w e) (table_rows w l).
Proof.
  induction l as [| x l IH]; intros Hin; [contradiction |].
  rewrite table_rows_cons. destruct Hin as [-> | Hin].
  - apply occurs_right, occurs_here.
  - apply occurs_left, IH, Hin.
Qed.

(** X16. The message lists every version it was given: each entry of
    either list has its row, with the function, the version and the date,
    in the body that lines 145-161 build. *)
Theorem every_entry_has_a_row (w : world) (alert deleted : list entry) (e : entry) :
  In e deleted \/ In e alert ->
  occurs_in (table_row w e) (message_body w alert deleted).
Proof.
  intros Hin. unfold message_body. cbv zeta.
  apply occurs_right.
  destruct Hin as [Hin | Hin].
  - assert (Ht : truthy_list deleted = true) by (destruct deleted; [contradiction | reflexivity]).
    rewrite Ht.
    assert (Hd : forall p, occurs_in (table_row w e)
              (p ++ "<h3>Deleted Lambda Versions</h3><table border='1' cellpadding='5' cellspacing='0'>"
                 ++ "<tr><th>Function Name</th><th>Version</th><th>Last Modified</th></tr>"
                 ++ table_rows w deleted ++ "</table><br>")).
    { intros p. do 3 apply occurs_left. apply occurs_right.
      now apply table_rows_occurs. }
    destruct (truthy_list alert); [apply occurs_right |]; apply Hd.
  - assert (Ht : truthy_list alert = true) by (destruct alert; [contradiction | reflexivity]).
    rewrite Ht.
    do 3 apply occurs_left. apply occurs_right. now apply table_rows_occurs.
Qed.

Lemma every_entry_has_a_row_witness :
  occurs_in (table_row scenario_world version_A)
    (message_body scenario_world [version_C] [version_A]).
Proof.
  apply (every_entry_has_a_row scenario_world [version_C] [version_A] version_A).
  left. simpl. tauto.
Defined.
